(** * entitycoll: URL-to-operation resolution and collection-filter parsing

    A shallow embedding of [entitycoll.go] (package [entitycoll]) and the
    properties of its path parser, query-filter parser, route resolver and
    handler wrappers.

    Go strings are byte sequences: they are modelled as [string] (a list of
    8-bit [ascii]).  A Go [map[string]T] is a [gmap string T].  A Go function
    that can panic returns an [outcome]; code that mutates its receiver, the
    log or the response writer runs in the state-and-panic monad [M]. *)

From Stdlib Require Import ZArith Ascii String List Lia Bool.
From stdpp Require Import gmap strings list fin_maps.

Local Open Scope string_scope.

(** ** Outcomes and the state-and-panic monad *)

(** A Go call either returns normally or panics (run-time error). *)
Inductive outcome (A : Type) : Type :=
| Done (a : A)
| Panic (reason : string).
Arguments Done {A} a.
Arguments Panic {A} reason.

Definition returns {A} (o : outcome A) : bool :=
  match o with Done _ => true | Panic _ => false end.

Definition panics {A} (o : outcome A) : bool := negb (returns o).

Module GoM.

(** Computations over a mutable state [S] that may panic. *)
Definition M (S A : Type) : Type := S -> outcome (A * S).

Definition ret {S A} (a : A) : M S A := fun s => Done (a, s).

Definition bind {S A B} (m : M S A) (k : A -> M S B) : M S B :=
  fun s => match m s with
           | Done (a, s') => k a s'
           | Panic r => Panic r
           end.

Definition lift {S A} (o : outcome A) : M S A :=
  fun s => match o with Done a => Done (a, s) | Panic r => Panic r end.

Definition modify {S} (f : S -> S) : M S unit := fun s => Done (tt, f s).

(** [for _, x := range l { body x }] *)
Fixpoint forRange {S A} (l : list A) (body : A -> M S unit) : M S unit :=
  match l with
  | [] => ret tt
  | x :: l' => bind (body x) (fun _ => forRange l' body)
  end.

End GoM.
Import GoM.

Notation "x <- m ;; k" := (bind m (fun x => k))
  (at level 100, m at next level, right associativity).
Notation "m ;;; k" := (bind m (fun _ => k))
  (at level 100, right associativity).

(** ** Go primitives used by the package *)

(** The first [n] bytes of [s], and [s] without its first [n] bytes. *)
Fixpoint takeBytes (n : nat) (s : string) : string :=
  match n with
  | O => EmptyString
  | S n' => match s with
            | EmptyString => EmptyString
            | String c s' => String c (takeBytes n' s')
            end
  end.

Fixpoint dropBytes (n : nat) (s : string) : string :=
  match n with
  | O => s
  | S n' => match s with
            | EmptyString => EmptyString
            | String _ s' => dropBytes n' s'
            end
  end.

(** [s[:hi]]: panics when [hi > len(s)]. *)
Definition slice_to (s : string) (hi : nat) : outcome string :=
  if (hi <=? String.length s)%nat then Done (takeBytes hi s)
  else Panic "slice bounds out of range".

(** [s[lo:]]: panics when [lo > len(s)]. *)
Definition slice_from (s : string) (lo : nat) : outcome string :=
  if (lo <=? String.length s)%nat then Done (dropBytes lo s)
  else Panic "slice bounds out of range".

(** [l[i]]: panics when [i] is out of range. *)
Definition index {A} (l : list A) (i : nat) : outcome A :=
  match nth_error l i with
  | Some x => Done x
  | None => Panic "index out of range"
  end.

(** [strings.Split(s, sep)] for a one-byte separator: the substrings between
    the separators, always at least one element. *)
Fixpoint Split (s : string) (sep : ascii) : list string :=
  match s with
  | EmptyString => [EmptyString]
  | String c s' =>
      if Ascii.eqb c sep then EmptyString :: Split s' sep
      else match Split s' sep with
           | [] => [String c EmptyString]
           | w :: ws => String c w :: ws
           end
  end.

(** [strconv]: errors are syntax errors or range errors. *)
Inductive NumError : Type := ErrSyntax | ErrRange.

Definition maxUint64 : Z := 2 ^ 64 - 1.

Definition isDigit (c : ascii) : bool :=
  ((48 <=? nat_of_ascii c) && (nat_of_ascii c <=? 57))%nat.

(** The digit loop of [strconv.ParseUint(s, 10, 64)], accumulator [n]. *)
Fixpoint parseUintLoop (s : string) (n : Z) : Z * option NumError :=
  match s with
  | EmptyString => (n, None)
  | String c s' =>
      if isDigit c then
        let d := (Z.of_nat (nat_of_ascii c) - 48)%Z in
        if (maxUint64 / 10 + 1 <=? n)%Z then (maxUint64, Some ErrRange)
        else
          let n10 := ((n * 10) mod 2 ^ 64)%Z in
          let n1 := ((n10 + d) mod 2 ^ 64)%Z in
          if ((n1 <? n10) || (maxUint64 <? n1))%Z
          then (maxUint64, Some ErrRange)
          else parseUintLoop s' n1
      else (0%Z, Some ErrSyntax)
  end.

(** [strconv.ParseUint(s, 10, 64)] *)
Definition ParseUint (s : string) : Z * option NumError :=
  match s with
  | EmptyString => (0%Z, Some ErrSyntax)
  | _ => parseUintLoop s 0
  end.

(** [strconv.ParseInt(s, 10, 64)] *)
Definition ParseInt (s : string) : Z * option NumError :=
  match s with
  | EmptyString => (0%Z, Some ErrSyntax)
  | String c rest =>
      let neg := Ascii.eqb c "-" in
      let s1 := if (Ascii.eqb c "+" || neg) then rest else s in
      let '(un, err) := ParseUint s1 in
      match err with
      | Some ErrSyntax => (0%Z, Some ErrSyntax)
      | _ =>
          let cutoff := (2 ^ 63)%Z in
          if (negb neg && (cutoff <=? un)%Z) then ((cutoff - 1)%Z, Some ErrRange)
          else if (neg && (cutoff <? un)%Z) then ((- cutoff)%Z, Some ErrRange)
          else ((if neg then - un else un)%Z, None)
      end
  end.

(** ** Collection filters *)

Inductive Order : Type := ASC | DESC.

Record SortObj : Type := mkSortObj {
  SortOrder : Order;
  SortFieldName : string
}.

Inductive CompType : Type := LT | LTEQ | EQ | GT | GTEQ.

Record PropFilterObj : Type := mkPropFilterObj {
  Comp : CompType;
  FieldName : string;
  Value : string
}.

(** [Page] and [Count] are pointers: [None] is [nil]. *)
Record CollFilter : Type := mkCollFilter {
  Page : option Z;
  Count : option Z;
  Sort : list SortObj;
  PropFilters : list PropFilterObj
}.

(** [var cf CollFilter] *)
Definition zeroCollFilter : CollFilter :=
  {| Page := None; Count := None; Sort := []; PropFilters := [] |}.

(** The receiver [cf] together with the lines written through [log]. *)
Record FilterState : Type := mkFilterState {
  cf : CollFilter;
  logged : list string
}.

Definition logPrintln (line : string) : M FilterState unit :=
  modify (fun st => {| cf := cf st; logged := logged st ++ [line] |}).

Definition appendSort (so : SortObj) : M FilterState unit :=
  modify (fun st =>
    {| cf := {| Page := Page (cf st); Count := Count (cf st);
                Sort := Sort (cf st) ++ [so];
                PropFilters := PropFilters (cf st) |};
       logged := logged st |}).

Definition appendPropFilter (pf : PropFilterObj) : M FilterState unit :=
  modify (fun st =>
    {| cf := {| Page := Page (cf st); Count := Count (cf st);
                Sort := Sort (cf st);
                PropFilters := PropFilters (cf st) ++ [pf] |};
       logged := logged st |}).

Definition setPage (p : Z) : M FilterState unit :=
  modify (fun st =>
    {| cf := {| Page := Some p; Count := Count (cf st);
                Sort := Sort (cf st);
                PropFilters := PropFilters (cf st) |};
       logged := logged st |}).

Definition setCount (c : Z) : M FilterState unit :=
  modify (fun st =>
    {| cf := {| Page := Page (cf st); Count := Some c;
                Sort := Sort (cf st);
                PropFilters := PropFilters (cf st) |};
       logged := logged st |}).

Definition sortWarning : string :=
  "WARNING: failed to parse 'sort' query parameter".

(** Body of the loop of [popSort] for one element [ss]. *)
Definition popSortElem (ss : string) : M FilterState unit :=
  p4 <- lift (slice_to ss 4) ;;
  if String.eqb p4 "asc." then
    (f <- lift (slice_from ss 4) ;;
     appendSort {| SortOrder := ASC; SortFieldName := f |})
  else
    (p5 <- lift (slice_to ss 5) ;;
     if String.eqb p5 "desc." then
       (f <- lift (slice_from ss 5) ;;
        appendSort {| SortOrder := DESC; SortFieldName := f |})
     else logPrintln sortWarning).

(** [func (cf *CollFilter) popSort(sortString string)] *)
Definition popSort (sortString : string) : M FilterState unit :=
  forRange (Split sortString ",") popSortElem.

Definition filterWarning (k : string) : string :=
  "WARNING: failed to parse filter query parameter, '" ++ k ++ "'".

(** Body of the inner loop of [popFilter] for value [v] under key [k]. *)
Definition popFilterValue (k v : string) : M FilterState unit :=
  a <- lift (slice_to v 3) ;;
  if String.eqb a "lt." then
    (x <- lift (slice_to v 3) ;;
     appendPropFilter {| Comp := LT; FieldName := k; Value := x |})
  else
  b <- lift (slice_to v 5) ;;
  if String.eqb b "lteq." then
    (x <- lift (slice_to v 5) ;;
     appendPropFilter {| Comp := LTEQ; FieldName := k; Value := x |})
  else
  c <- lift (slice_to v 3) ;;
  if String.eqb c "eq." then
    (x <- lift (slice_to v 3) ;;
     appendPropFilter {| Comp := EQ; FieldName := k; Value := x |})
  else
  d <- lift (slice_to v 3) ;;
  if String.eqb d "gt." then
    (x <- lift (slice_to v 3) ;;
     appendPropFilter {| Comp := GT; FieldName := k; Value := x |})
  else
  e <- lift (slice_to v 5) ;;
  if String.eqb e "gteq." then
    (x <- lift (slice_to v 5) ;;
     appendPropFilter {| Comp := GTEQ; FieldName := k; Value := x |})
  else logPrintln (filterWarning k).

(** [func (cf *CollFilter) popFilter(filterQuery url.Values)].  Go leaves the
    iteration order of a map unspecified: [entries] is the sequence of
    (key, values) pairs in the order the [range] statement visits them. *)
Definition popFilter (entries : list (string * list string)) : M FilterState unit :=
  forRange entries (fun kv =>
    forRange (snd kv) (fun v => popFilterValue (fst kv) v)).

(** The slice expressions of one [popSort] iteration stay in range:
    [ss[:4]] needs four bytes, and [ss[:5]] is reached unless the element
    starts with [asc.]. *)
Definition sortElemInRange (ss : string) : bool :=
  (4 <=? String.length ss)%nat &&
  (String.eqb (takeBytes 4 ss) "asc." || (5 <=? String.length ss)%nat).

(** The same for one [popFilter] iteration: [v[:3]] needs three bytes, and
    [v[:5]] is reached unless the value starts with [lt.]. *)
Definition filterValueInRange (v : string) : bool :=
  (3 <=? String.length v)%nat &&
  (String.eqb (takeBytes 3 v) "lt." || (5 <=? String.length v)%nat).

(** ** Errors *)

(** Go's [error] values met in the package: the two path errors it declares,
    and the opaque errors of its collaborators, kept by their message. *)
Inductive error : Type :=
| pathComponentError (path : string)
| parseUUIDError (pathComponent : string) (parseError : error)
| errorString (msg : string).

(** ** [CollFilter.pop] *)

(** [url.Values], the result of [r.URL.Query()]. *)
Abbreviation Values := (gmap string (list string)).

(** The order in which [range] visits a map is chosen by the Go runtime. *)
Definition RangeOrder : Type := Values -> list (string * list string).

(** A legal order visits every entry of the map exactly once. *)
Definition legalOrder (rangeOrder : RangeOrder) : Prop :=
  forall q : Values, rangeOrder q ≡ₚ map_to_list q.

Definition pageWarning : string :=
  "WARNING: failed to parse 'page' query parameter".
Definition countWarning : string :=
  "WARNING: failed to parse 'count' query parameter".

Definition whenErr {E} (err : option E) (m : M FilterState unit) : M FilterState unit :=
  match err with Some _ => m | None => ret tt end.

(** [func (cf *CollFilter) pop(r *http.Request) error], from
    [q := r.URL.Query()] on. *)
Definition pop (rangeOrder : RangeOrder) (q : Values) : M FilterState (option error) :=
  match q !! "page" with
  | Some pageS =>
      s <- lift (index pageS 0) ;;
      let '(page, err) := ParseInt s in
      whenErr err (logPrintln pageWarning) ;;;
      setPage page
  | None => ret tt
  end ;;;
  let q := delete "page" q in
  match q !! "count" with
  | Some countS =>
      s <- lift (index countS 0) ;;
      let '(count, err) := ParseUint s in
      whenErr err (logPrintln countWarning) ;;;
      setCount count
  | None => ret tt
  end ;;;
  let q := delete "count" q in
  match q !! "sort" with
  | Some sortS =>
      s <- lift (index sortS 0) ;;
      popSort s
  | None => ret tt
  end ;;;
  let q := delete "sort" q in
  popFilter (rangeOrder q) ;;;
  ret None.

(** [var cf CollFilter; err = cf.pop(r)] with an empty log. *)
Definition freshFilter : FilterState :=
  {| cf := zeroCollFilter; logged := [] |}.

Definition specQuery : Values :=
  {[ "page" := ["2"]; "count" := ["10"];
     "sort" := ["asc.name,desc.age"]; "status" := ["eq.active"] ]}.

(** ** External collaborators *)

(** What the package takes from outside: the UUID library
    ([github.com/satori/go.uuid]), the JSON encoder, the formatter behind
    [%+v], the authentication function installed by [SetRequestorAuthFn]
    ([None] while the function variable is still nil) and the runtime's map
    iteration order. *)
Record Collection (Entity : Type) : Type := mkCollection {
  TotalEntities : nat;
  Entities : list Entity
}.
Arguments TotalEntities {Entity} c.
Arguments Entities {Entity} c.

Class World : Type := {
  UUID : Type;
  Entity : Type;
  (** [uuid.FromString]: a UUID value and an error, nil on success. *)
  FromString : string -> UUID * option error;
  jsonMarshalEntity : Entity -> string * option error;
  jsonMarshalCollection : Collection Entity -> string * option error;
  (** [fmt.Sprintf("%+v", x)] *)
  sprintEntity : Entity -> string;
  sprintCollection : Collection Entity -> string;
  getRequestor : option (string -> string -> option Entity * option error);
  rangeOrder : RangeOrder
}.

Section Package.

Context {W : World}.

(** The [EntityCollection] interface.  Its methods are opaque capabilities:
    they are taken to return normally, with a result and an error. *)
Record EntityCollection : Type := mkEntityCollection {
  GetRestName : string;
  CreateEntity : option Entity -> gmap string UUID -> string -> string * option error;
  GetEntity : UUID -> Entity * option error;
  GetCollection : gmap string UUID -> CollFilter -> Collection Entity * option error;
  EditEntity : UUID -> string -> option error;
  DelEntity : UUID -> option error
}.

(** ** Requests and responses *)

(** The parts of [*http.Request] the package reads: [r.Method],
    [r.URL.Path], [r.URL.Query()], [r.BasicAuth()], [ioutil.ReadAll(r.Body)]
    and the requestor stored in the context by [applySecurity]. *)
Record Request : Type := mkRequest {
  Method : string;
  URLPath : string;
  Query : Values;
  BasicAuth : option (string * string);
  Body : string * option error;
  ctxRequestor : option Entity
}.

Definition withPath (r : Request) (p : string) : Request :=
  {| Method := Method r; URLPath := p; Query := Query r;
     BasicAuth := BasicAuth r; Body := Body r;
     ctxRequestor := ctxRequestor r |}.

Definition withRequestor (r : Request) (e : option Entity) : Request :=
  {| Method := Method r; URLPath := URLPath r; Query := Query r;
     BasicAuth := BasicAuth r; Body := Body r; ctxRequestor := e |}.

(** [http.ResponseWriter]: the header map, the status once written, and the
    body written so far. *)
Record Response : Type := mkResponse {
  header : list (string * string);
  statusCode : option nat;
  body : string
}.

(** What a handler changes: the response and the log. *)
Record HState : Type := mkHState {
  resp : Response;
  hlog : list string
}.

Definition Handler : Type := Request -> M HState unit.

Definition StatusOK := 200%nat.
Definition StatusCreated := 201%nat.
Definition StatusMovedPermanently := 301%nat.
Definition StatusBadRequest := 400%nat.
Definition StatusUnauthorized := 401%nat.
Definition StatusForbidden := 403%nat.
Definition StatusNotFound := 404%nat.
Definition StatusInternalServerError := 500%nat.

Definition onResp (f : Response -> Response) : M HState unit :=
  modify (fun st => {| resp := f (resp st); hlog := hlog st |}).

Definition logLine (line : string) : M HState unit :=
  modify (fun st => {| resp := resp st; hlog := hlog st ++ [line] |}).

(** [w.Header().Add(k, v)] *)
Definition headerAdd (k v : string) : M HState unit :=
  onResp (fun w => {| header := header w ++ [(k, v)];
                      statusCode := statusCode w; body := body w |}).

(** [w.Header().Set(k, v)] *)
Definition headerSet (k v : string) : M HState unit :=
  onResp (fun w =>
    {| header := filter (fun kv => negb (String.eqb (fst kv) k)) (header w) ++ [(k, v)];
       statusCode := statusCode w; body := body w |}).

(** [w.WriteHeader(code)]: only the first call counts. *)
Definition WriteHeader (code : nat) : M HState unit :=
  onResp (fun w =>
    {| header := header w;
       statusCode := match statusCode w with Some c => Some c | None => Some code end;
       body := body w |}).

(** [fmt.Fprint(w, s)]: the first write sends status 200 if none was sent. *)
Definition Fprint (s : string) : M HState unit :=
  WriteHeader StatusOK ;;;
  onResp (fun w => {| header := header w; statusCode := statusCode w;
                      body := body w ++ s |}).

Definition newline : string := String (ascii_of_nat 10) EmptyString.

(** [http.Error(w, msg, code)] *)
Definition httpError (msg : string) (code : nat) : M HState unit :=
  headerSet "Content-Type" "text/plain; charset=utf-8" ;;;
  headerSet "X-Content-Type-Options" "nosniff" ;;;
  WriteHeader code ;;;
  Fprint (msg ++ newline).

(** [err.Error()] for the errors of the package. *)
Fixpoint Error (e : error) : string :=
  match e with
  | pathComponentError p =>
      "collection entity URL (" ++ p ++
      ") should have an even number of components (entity name and UUID for each parent entity and name for entity)"
  | parseUUIDError pc pe =>
      "error decoding UUID of path component (" ++ pc ++ ") : " ++ Error pe
  | errorString msg => msg
  end.

(** [l[i]] with a signed index: panics when [i < 0] or [i >= len(l)]. *)
Definition indexZ {A} (l : list A) (i : Z) : outcome A :=
  if (i <? 0)%Z then Panic "index out of range" else index l (Z.to_nat i).

Definition len {A} (l : list A) : Z := Z.of_nat (length l).

(** [strings.Split(path, "/")[1:]]: [Split] never returns an empty slice, so
    the slice expression cannot panic. *)
Definition pathComponentsOf (path : string) : list string :=
  tail (Split path "/").

(** ** Single-entity handler *)

(** [getSingularHandler(ec)] *)
Definition getSingularHandler (ec : EntityCollection) : Handler := fun r =>
  let pathComponents := pathComponentsOf (URLPath r) in
  last <- lift (indexZ pathComponents (len pathComponents - 1)) ;;
  let '(entityUuid, err) := FromString last in
  match err with
  | Some e =>
      logLine ("error parsing UUID (" ++ last ++ "): " ++ Error e) ;;;
      httpError "error parsing  UUID" StatusBadRequest
  | None =>
      if String.eqb (Method r) "PUT" then
        let '(b, err) := Body r in
        match err with
        | Some e =>
            logLine ("error parsing request body: " ++ Error e) ;;;
            httpError "error parsing request body" StatusInternalServerError
        | None =>
            match EditEntity ec entityUuid b with
            | Some e =>
                logLine ("error editing entity: " ++ Error e) ;;;
                httpError "error editing entity" StatusInternalServerError
            | None => ret tt
            end
        end
      else if String.eqb (Method r) "DELETE" then
        match DelEntity ec entityUuid with
        | Some e =>
            logLine ("error deleting entity: " ++ Error e) ;;;
            httpError "error deleting entity" StatusInternalServerError
        | None => ret tt
        end
      else if String.eqb (Method r) "GET" then
        let '(entity, err) := GetEntity ec entityUuid in
        match err with
        | Some e =>
            logLine ("error getting entity: " ++ Error e) ;;;
            httpError "could not find entity to GET" StatusBadRequest
        | None =>
            let '(entityJson, err) := jsonMarshalEntity entity in
            match err with
            | Some e =>
                logLine ("error encoding JSON entity (" ++ sprintEntity entity
                         ++ "): " ++ Error e) ;;;
                httpError "error encoding JSON" StatusInternalServerError
            | None => Fprint entityJson
            end
        end
      else ret tt
  end.

(** ** Identifier-path parser *)

(** The loop of [getPathComponentUuids]: [pcs] is what is left of
    [pathComponents] from index [i] on, and the loop runs while
    [i < len(pathComponents)-1], that is while two components are left.  The
    map is assigned before the error is looked at. *)
Fixpoint parentLoop (pcs : list string) (parentEntityUuids : gmap string UUID)
  : gmap string UUID * option error :=
  match pcs with
  | name :: ident :: rest =>
      let '(u, err) := FromString ident in
      let parentEntityUuids := <[name := u]> parentEntityUuids in
      match err with
      | Some e => (∅, Some (parseUUIDError name e))
      | None => parentLoop rest parentEntityUuids
      end
  | _ => (parentEntityUuids, None)
  end.

(** [getPathComponentUuids(path)] *)
Definition getPathComponentUuids (path : string) : gmap string UUID * option error :=
  let pathComponents := pathComponentsOf path in
  if negb (len pathComponents mod 2 =? 1)%Z then
    (∅, Some (pathComponentError path))
  else parentLoop pathComponents ∅.

(** ** Collection handler *)

(** [var cf CollFilter; err = cf.pop(r)] inside a handler: [pop] writes to
    the same log. *)
Definition runPop (q : Values) : M HState (option error * CollFilter) :=
  fun st =>
    match pop rangeOrder q {| cf := zeroCollFilter; logged := hlog st |} with
    | Done (err, fs) => Done ((err, cf fs), {| resp := resp st; hlog := logged fs |})
    | Panic reason => Panic reason
    end.

(** [getRequestorFromRequest(r)] *)
Definition getRequestorFromRequest (r : Request) : option Entity := ctxRequestor r.

(** The branch taken when [cf.pop(r)] returns an error; it does not return
    from the handler. *)
Definition filterErrorBranch (err : option error) : M HState unit :=
  match err with
  | Some e =>
      logLine ("error retrieving collection, parsing collection filters: "
               ++ Error e) ;;;
      httpError "error parsing collection filters" StatusBadRequest
  | None => ret tt
  end.

(** The rest of the GET case: [ec.GetCollection], encoding, writing. *)
Definition collectionResponse (ec : EntityCollection)
    (parentEntityUuids : gmap string UUID) (filter : CollFilter) : M HState unit :=
  let '(c, err) := GetCollection ec parentEntityUuids filter in
  match err with
  | Some e =>
      logLine ("error retrieving collection, getting collection: " ++ Error e) ;;;
      httpError "error retrieving collection" StatusNotFound
  | None =>
      let '(entityJson, err) := jsonMarshalCollection c in
      match err with
      | Some e =>
          logLine ("error retrieving collection (" ++ sprintCollection c
                   ++ "): " ++ Error e) ;;;
          httpError "error encoding JSON" StatusInternalServerError
      | None => Fprint entityJson
      end
  end.

(** [case http.MethodGet] of the plural handler. *)
Definition pluralGet (ec : EntityCollection) (r : Request)
    (parentEntityUuids : gmap string UUID) : M HState unit :=
  res <- runPop (Query r) ;;
  filterErrorBranch (fst res) ;;;
  collectionResponse ec parentEntityUuids (snd res).

(** [case http.MethodPost] of the plural handler. *)
Definition pluralPost (ec : EntityCollection) (r : Request)
    (parentEntityUuids : gmap string UUID) : M HState unit :=
  let '(b, err) := Body r in
  match err with
  | Some e =>
      logLine ("error reading request body: " ++ Error e) ;;;
      httpError "error reading request body" StatusInternalServerError
  | None =>
      let '(entityPath, err) :=
        CreateEntity ec (getRequestorFromRequest r) parentEntityUuids b in
      match err with
      | Some e =>
          logLine ("error creating entity: %v " ++ Error e) ;;;
          httpError "error creating entity" StatusBadRequest
      | None =>
          headerSet "Location" entityPath ;;;
          WriteHeader StatusCreated
      end
  end.

(** The response to a path error of [getPathComponentUuids]. *)
Definition pathErrorResponse (e : error) : M HState unit :=
  logLine (Error e) ;;;
  match e with
  | pathComponentError _ =>
      httpError "invalid collection path" StatusNotFound
  | parseUUIDError pathComponent _ =>
      httpError ("invalid UUID for component: " ++ pathComponent) StatusNotFound
  | _ => httpError "unexpected error" StatusInternalServerError
  end.

(** [getPluralHandler(ec)] *)
Definition getPluralHandler (ec : EntityCollection) : Handler := fun r =>
  let '(parentEntityUuids, err) := getPathComponentUuids (URLPath r) in
  match err with
  | Some e => pathErrorResponse e
  | None =>
      if String.eqb (Method r) "GET" then pluralGet ec r parentEntityUuids
      else if String.eqb (Method r) "POST" then pluralPost ec r parentEntityUuids
      else ret tt
  end.

(** [entityApiHandlerFactory(ec)]: the singular and the plural handler. *)
Definition entityApiHandlerFactory (ec : EntityCollection) : Handler * Handler :=
  (getSingularHandler ec, getPluralHandler ec).

(** ** Security and CORS wrappers *)

Definition dquote : string := String (ascii_of_nat 34) EmptyString.

(** [applySecurity(handler)] *)
Definition applySecurity (handler : Handler) : Handler := fun r =>
  if String.eqb (Method r) "OPTIONS" then handler r
  else
    match BasicAuth r with
    | None =>
        headerAdd "Access-Control-Allow-Origin" "http://localhost:8090" ;;;
        headerAdd "WWW-Authenticate" ("Basic realm=" ++ dquote ++ "a" ++ dquote) ;;;
        httpError "" StatusUnauthorized
    | Some (uname, pword) =>
        match getRequestor with
        | None => lift (Panic "invalid memory address or nil pointer dereference")
        | Some auth =>
            let '(requestor, err) := auth uname pword in
            match err with
            | Some _ => httpError "incorrect uname/pword" StatusForbidden
            | None => handler (withRequestor r requestor)
            end
        end
    end.

(** [applyCorsHeaders(handler)] *)
Definition applyCorsHeaders (handler : Handler) : Handler := fun r =>
  if String.eqb (Method r) "OPTIONS" then
    headerAdd "Access-Control-Allow-Origin" "http://localhost:8090" ;;;
    headerAdd "Access-Control-Allow-Headers" "Authorization" ;;;
    headerAdd "Access-Control-Allow-Methods" "GET, PUT, POST, DELETE"
  else if String.eqb (Method r) "GET" || String.eqb (Method r) "PUT"
          || String.eqb (Method r) "POST" || String.eqb (Method r) "DELETE" then
    headerAdd "Access-Control-Allow-Origin" "http://localhost:8090" ;;;
    headerAdd "Access-Control-Expose-Headers" "Location" ;;;
    handler r
  else ret tt.

(** ** [http.ServeMux]

    The multiplexer of [net/http] as the package uses it (patterns that
    start with a slash, so without host-specific patterns): the pattern map
    [m], and [es], the patterns that end in a slash, longest first. *)

Record muxEntry : Type := mkMuxEntry {
  h : Handler;
  pattern : string
}.

Record ServeMux : Type := mkServeMux {
  m : gmap string muxEntry;
  es : list muxEntry
}.

(** The zero value of [var entityServeMux http.ServeMux]. *)
Definition emptyServeMux : ServeMux := {| m := ∅; es := [] |}.

Definition lastByte (s : string) : option ascii :=
  String.get (String.length s - 1) s.

Definition endsWithSlash (s : string) : bool :=
  match lastByte s with Some c => Ascii.eqb c "/" | None => false end.

(** [appendSorted(es, e)]: before the first entry with a shorter pattern. *)
Fixpoint appendSorted (es : list muxEntry) (e : muxEntry) : list muxEntry :=
  match es with
  | [] => [e]
  | e' :: rest =>
      if (String.length (pattern e') <? String.length (pattern e))%nat
      then e :: e' :: rest
      else e' :: appendSorted rest e
  end.

(** [mux.Handle(pattern, handler)] *)
Definition Handle (pat : string) (handler : Handler) : M ServeMux unit :=
  fun mux =>
    if String.eqb pat "" then Panic "http: invalid pattern"
    else match m mux !! pat with
         | Some _ => Panic ("http: multiple registrations for " ++ pat)
         | None =>
             let e := {| h := handler; pattern := pat |} in
             Done (tt, {| m := <[pat := e]> (m mux);
                          es := if endsWithSlash pat then appendSorted (es mux) e
                                else es mux |})
         end.

(** [http.NotFoundHandler()] *)
Definition NotFoundHandler : Handler := fun _ =>
  httpError "404 page not found" StatusNotFound.

(** [http.RedirectHandler(url, code)]: the [Location] header and the status;
    the short HTML note that [http.Redirect] adds for GET is left out. *)
Definition RedirectHandler (url : string) (code : nat) : Handler := fun _ =>
  headerSet "Location" url ;;;
  WriteHeader code.

(** [mux.match(path)]: an exact pattern, else the longest pattern ending in a
    slash that is a prefix of the path. *)
Definition muxMatch (mux : ServeMux) (path : string) : option muxEntry :=
  match m mux !! path with
  | Some v => Some v
  | None => List.find (fun e => String.prefix (pattern e) path) (es mux)
  end.

(** [mux.handler(host, path)] *)
Definition muxHandlerFor (mux : ServeMux) (path : string) : Handler * string :=
  match muxMatch mux path with
  | Some e => (h e, pattern e)
  | None => (NotFoundHandler, "")
  end.

(** [path.Clean] on the segments of a rooted path: empty segments and [.]
    are dropped, [..] drops the segment before it.  [out] is in reverse. *)
Fixpoint cleanSegments (segs out : list string) : list string :=
  match segs with
  | [] => rev out
  | seg :: rest =>
      if String.eqb seg "" || String.eqb seg "." then cleanSegments rest out
      else if String.eqb seg ".." then cleanSegments rest (tail out)
      else cleanSegments rest (seg :: out)
  end.

(** [path.Clean(p)] for a rooted path [p]. *)
Definition pathClean (p : string) : string :=
  "/" ++ String.concat "/" (cleanSegments (Split p "/") []).

(** [cleanPath(p)] of [net/http]. *)
Definition cleanPath (p : string) : string :=
  if String.eqb p "" then "/"
  else
    let p := match String.get 0 p with
             | Some c => if Ascii.eqb c "/" then p else "/" ++ p
             | None => p
             end in
    let np := pathClean p in
    if endsWithSlash p && negb (String.eqb np "/") then np ++ "/" else np.

(** [mux.shouldRedirectRLocked(host, path)] *)
Definition shouldRedirect (mux : ServeMux) (path : string) : bool :=
  match m mux !! path with
  | Some _ => false
  | None =>
      if (String.length path =? 0)%nat then false
      else match m mux !! (path ++ "/") with
           | Some _ => negb (endsWithSlash path)
           | None => false
           end
  end.

(** [mux.Handler(r)]: the handler and the pattern it was registered under.
    As the documentation of [net/http] has it, for a path that is not in
    canonical form the handler is one that redirects to the canonical path;
    the pattern is then the one the canonical path matches.  The redirect
    target is the path alone: the raw query string is not modelled. *)
Definition muxHandler (mux : ServeMux) (r : Request) : Handler * string :=
  if String.eqb (Method r) "CONNECT" then
    if shouldRedirect mux (URLPath r)
    then (RedirectHandler (URLPath r ++ "/") StatusMovedPermanently, URLPath r ++ "/")
    else muxHandlerFor mux (URLPath r)
  else
    let path := cleanPath (URLPath r) in
    if shouldRedirect mux path
    then (RedirectHandler (path ++ "/") StatusMovedPermanently, path ++ "/")
    else if negb (String.eqb path (URLPath r)) then
      (RedirectHandler path StatusMovedPermanently, snd (muxHandlerFor mux path))
    else muxHandlerFor mux (URLPath r).

(** ** Registration and route resolution *)

(** [CreateApiObject(ec)], on the package's [entityServeMux]. *)
Definition CreateApiObject (ec : EntityCollection) : M ServeMux unit :=
  let '(sHandler, pHandler) := entityApiHandlerFactory ec in
  let sHandler := applySecurity sHandler in
  let pHandler := applySecurity pHandler in
  let sHandler := applyCorsHeaders sHandler in
  let pHandler := applyCorsHeaders pHandler in
  Handle ("/" ++ GetRestName ec) pHandler ;;;
  let sPath := "/" ++ GetRestName ec ++ "/" in
  Handle sPath sHandler.

(** [RootApiHandler], reading [entityServeMux].  The request is a pointer:
    its path is overwritten for each hypothesis and restored from [pathBu]
    before a handler is called. *)
Definition RootApiHandler (entityServeMux : ServeMux) : Handler := fun r =>
  let pathBu := URLPath r in
  let pathComponents := Split (URLPath r) "/" in
  entityName <- lift (indexZ pathComponents (len pathComponents - 1)) ;;
  let '(h1, pattern1) := muxHandler entityServeMux (withPath r ("/" ++ entityName)) in
  if negb (String.eqb pattern1 "") then h1 (withPath r pathBu)
  else
    entityName <- lift (indexZ pathComponents (len pathComponents - 2)) ;;
    let '(h2, pattern2) :=
      muxHandler entityServeMux (withPath r ("/" ++ entityName ++ "/")) in
    if negb (String.eqb pattern2 "") then h2 (withPath r pathBu)
    else h2 (withPath r pathBu).

End Package.

(** ** Paths built from name/identifier pairs *)

Fixpoint slashFree (s : string) : bool :=
  match s with
  | EmptyString => true
  | String c s' => negb (Ascii.eqb c "/") && slashFree s'
  end.

(** The components of a path made of (name, identifier) pairs. *)
Fixpoint flattenPairs (pairs : list (string * string)) : list string :=
  match pairs with
  | [] => []
  | (name, ident) :: rest => name :: ident :: flattenPairs rest
  end.

(** The path [/name1/id1/.../nameN/idN/terminal], with the identifiers
    printed by [toString]. *)
Fixpoint buildPath {U : Type} (toString : U -> string)
    (pairs : list (string * U)) (terminal : string) : string :=
  match pairs with
  | [] => "/" ++ terminal
  | (name, u) :: rest =>
      "/" ++ name ++ "/" ++ toString u ++ buildPath toString rest terminal
  end.

(** A path of the shape the plural handler expects: pairs whose identifiers
    all parse, then one terminal name. *)
Definition validPluralPath {W : World} (path : string) : Prop :=
  exists pairs terminal,
    pathComponentsOf path = (flattenPairs pairs ++ [terminal])%list /\
    Forall (fun p => snd (FromString (snd p)) = None) pairs.

(** The map after assigning the pairs from left to right: a later pair
    with the same name overwrites an earlier one. *)
Definition insertAll {U : Type} (pairs : list (string * U))
    (acc : gmap string U) : gmap string U :=
  foldl (fun a p => <[fst p := snd p]> a) acc pairs.

(** The pairs of a path with their identifiers parsed. *)
Definition parsedPairs {W : World} (pairs : list (string * string))
  : list (string * UUID) :=
  map (fun p => (fst p, fst (FromString (snd p)))) pairs.

(** The pairs of a map as they appear in a path. *)
Definition printedPairs {U : Type} (toString : U -> string)
    (pairs : list (string * U)) : list (string * string) :=
  map (fun p => (fst p, toString (snd p))) pairs.

(** The multiplexer holding the two routes of one collection [name]: the
    plural handler under [/name] and the singular handler under [/name/]. *)
Definition twoRoutes {W : World} (name : string) (pHandler sHandler : Handler)
  : ServeMux :=
  let pe := {| h := pHandler; pattern := "/" ++ name |} in
  let se := {| h := sHandler; pattern := "/" ++ name ++ "/" |} in
  {| m := <["/" ++ name ++ "/" := se]> (<["/" ++ name := pe]> ∅);
     es := [se] |}.

(** The handlers [CreateApiObject] registers for [ec]. *)
Definition pluralRoute {W : World} (ec : EntityCollection) : Handler :=
  applyCorsHeaders (applySecurity (getPluralHandler ec)).

Definition singularRoute {W : World} (ec : EntityCollection) : Handler :=
  applyCorsHeaders (applySecurity (getSingularHandler ec)).

(** The methods [applyCorsHeaders] lets through or answers itself. *)
Definition corsMethods : list string := ["OPTIONS"; "GET"; "PUT"; "POST"; "DELETE"].

(** ** A concrete world: canonical UUID strings *)

Module Canonical.

(** A UUID is a 128-bit number; its canonical text is 32 hexadecimal
    digits in groups of 8-4-4-4-12 separated by dashes. *)
Definition hexVal (c : ascii) : option N :=
  let n := N_of_ascii c in
  if ((48 <=? n) && (n <=? 57))%N then Some (n - 48)%N
  else if ((97 <=? n) && (n <=? 102))%N then Some (n - 87)%N
  else if ((65 <=? n) && (n <=? 70))%N then Some (n - 55)%N
  else None.

Definition isDashPos (pos : nat) : bool :=
  ((pos =? 8) || (pos =? 13) || (pos =? 18) || (pos =? 23))%nat.

Fixpoint decodeCanonical (s : string) (pos : nat) (acc : N) : option N :=
  match s with
  | EmptyString => Some acc
  | String c s' =>
      if isDashPos pos then
        if Ascii.eqb c "-" then decodeCanonical s' (S pos) acc else None
      else match hexVal c with
           | Some d => decodeCanonical s' (S pos) (acc * 16 + d)%N
           | None => None
           end
  end.

Definition fromString (s : string) : N * option error :=
  if (String.length s =? 36)%nat then
    match decodeCanonical s 0 0 with
    | Some u => (u, None)
    | None => (0%N, Some (errorString "uuid: invalid UUID string"))
    end
  else (0%N, Some (errorString "uuid: incorrect UUID length")).

Definition hexDigit (d : N) : ascii :=
  if (d <? 10)%N then ascii_of_N (48 + d) else ascii_of_N (87 + d).

(** The [n] lowest hexadecimal digits of [u], most significant first. *)
Fixpoint hexDigits (n : nat) (u : N) : string :=
  match n with
  | O => EmptyString
  | S n' => hexDigits n' (u / 16)%N ++ String (hexDigit (u mod 16)%N) EmptyString
  end.

Definition toString (u : N) : string :=
  let d := hexDigits 32 u in
  substring 0 8 d ++ "-" ++ substring 8 4 d ++ "-" ++ substring 12 4 d
    ++ "-" ++ substring 16 4 d ++ "-" ++ substring 20 12 d.

(** Entities are kept as their JSON text; anyone with credentials is
    authenticated as the user name given. *)
#[export] Instance world : World := {|
  UUID := N;
  Entity := string;
  FromString := fromString;
  jsonMarshalEntity := fun e => (e, None);
  jsonMarshalCollection := fun c => (String.concat "," (Entities c), None);
  sprintEntity := fun e => e;
  sprintCollection := fun c => String.concat " " (Entities c);
  getRequestor := Some (fun uname _ => (Some uname, None));
  rangeOrder := map_to_list
|}.

(** A collection named [widgets] that holds nothing. *)
Definition widgets : EntityCollection := {|
  GetRestName := "widgets";
  CreateEntity := fun _ _ _ => ("/widgets/00000000-0000-0000-0000-000000000000", None);
  GetEntity := fun _ => ("", Some (errorString "no such widget"));
  GetCollection := fun _ _ => ({| TotalEntities := 0; Entities := [] |}, None);
  EditEntity := fun _ _ => None;
  DelEntity := fun _ => None
|}.

Definition sampleUuid : string := "6ba7b810-9dad-11d1-80b4-00c04fd430c8".

Definition emptyResponse : Response :=
  {| header := []; statusCode := None; body := "" |}.

Definition start : HState := {| resp := emptyResponse; hlog := [] |}.

Definition request (method path : string) : Request :=
  {| Method := method; URLPath := path; Query := ∅;
     BasicAuth := Some ("alice", "secret"); Body := ("", None);
     ctxRequestor := None |}.

(** The plural handler of [widgets] behind the security layer. *)
Definition pluralHandler : Handler := applySecurity (getPluralHandler widgets).

(** [entityServeMux] after [CreateApiObject(widgets)]. *)
Definition widgetsMux : outcome (unit * ServeMux) :=
  CreateApiObject widgets emptyServeMux.

End Canonical.

(** ** Requests on which no slice or index expression of [pop] is out of range *)

(** [l[0]] exists and satisfies [ok]; vacuous when the key is absent. *)
Definition firstValueOk (o : option (list string)) (ok : string -> bool) : bool :=
  match o with
  | None => true
  | Some [] => false
  | Some (s :: _) => ok s
  end.

Definition popInRange (q : Values) : bool :=
  firstValueOk (q !! "page") (fun _ => true) &&
  firstValueOk (delete "page" q !! "count") (fun _ => true) &&
  firstValueOk (delete "count" (delete "page" q) !! "sort")
               (fun s => forallb sortElemInRange (Split s ",")) &&
  forallb (fun kv : string * list string => forallb filterValueInRange (snd kv))
          (map_to_list (delete "sort" (delete "count" (delete "page" q)))).

(** ** Sort strings and filter values as the parser reads them *)

(** [s] holds no byte [c]. *)
Fixpoint byteFree (c : ascii) (s : string) : bool :=
  match s with
  | EmptyString => true
  | String b s' => negb (Ascii.eqb b c) && byteFree c s'
  end.

(** The element of a sort string that stands for a directive. *)
Definition sortElem (so : SortObj) : string :=
  match SortOrder so with ASC => "asc." | DESC => "desc." end ++ SortFieldName so.

(** The value of the [sort] parameter that lists the directives [ds]. *)
Definition sortString (ds : list SortObj) : string :=
  String.concat "," (map sortElem ds).

(** What one iteration of [popSort] stores for the element [ss], if
    anything. *)
Definition sortOf (ss : string) : option SortObj :=
  if String.eqb (takeBytes 4 ss) "asc."
  then Some {| SortOrder := ASC; SortFieldName := dropBytes 4 ss |}
  else if String.eqb (takeBytes 5 ss) "desc."
  then Some {| SortOrder := DESC; SortFieldName := dropBytes 5 ss |}
  else None.

(** What one iteration of [popFilter] stores for the value [v] under the key
    [k], if anything. *)
Definition filterOf (k v : string) : option PropFilterObj :=
  if String.eqb (takeBytes 3 v) "lt."
  then Some {| Comp := LT; FieldName := k; Value := takeBytes 3 v |}
  else if String.eqb (takeBytes 5 v) "lteq."
  then Some {| Comp := LTEQ; FieldName := k; Value := takeBytes 5 v |}
  else if String.eqb (takeBytes 3 v) "eq."
  then Some {| Comp := EQ; FieldName := k; Value := takeBytes 3 v |}
  else if String.eqb (takeBytes 3 v) "gt."
  then Some {| Comp := GT; FieldName := k; Value := takeBytes 3 v |}
  else if String.eqb (takeBytes 5 v) "gteq."
  then Some {| Comp := GTEQ; FieldName := k; Value := takeBytes 5 v |}
  else None.

(** The state after the parser has stored the sort directives [sorts] and
    the property filters [filters] and logged the lines [lines]. *)
Definition parsed (st : FilterState) (sorts : list SortObj)
    (filters : list PropFilterObj) (lines : list string) : FilterState :=
  {| cf := {| Page := Page (cf st); Count := Count (cf st);
              Sort := (Sort (cf st) ++ sorts)%list;
              PropFilters := (PropFilters (cf st) ++ filters)%list |};
     logged := (logged st ++ lines)%list |}.

(** The directives and the warnings of a list of sort elements. *)
Definition sortsOf (elems : list string) : list SortObj :=
  omap sortOf elems.

Definition sortWarnings (elems : list string) : list string :=
  flat_map (fun ss => match sortOf ss with Some _ => [] | None => [sortWarning] end)
           elems.

(** The filters and the warnings of the entries of a query. *)
Definition filtersOf (entries : list (string * list string)) : list PropFilterObj :=
  flat_map (fun kv => omap (filterOf (fst kv)) (snd kv)) entries.

Definition filterWarnings (entries : list (string * list string)) : list string :=
  flat_map (fun kv =>
    flat_map (fun v => match filterOf (fst kv) v with
                       | Some _ => []
                       | None => [filterWarning (fst kv)]
                       end) (snd kv)) entries.

(** The first value under a key, when the key is there and has one. *)
Definition firstValue (o : option (list string)) : option string :=
  match o with
  | Some (s :: _) => Some s
  | _ => None
  end.

(** The query that [pop] hands to [popFilter]. *)
Definition filterQueryOf (q : Values) : Values :=
  delete "sort" (delete "count" (delete "page" q)).

(** The fields of the filter after [pop], given the order [entries] in which
    the remaining keys were visited. *)
Definition popFilterFields (q : Values) (entries : list (string * list string))
    (c : CollFilter) : CollFilter :=
  {| Page := match firstValue (q !! "page") with
             | Some s => Some (fst (ParseInt s))
             | None => Page c
             end;
     Count := match firstValue (q !! "count") with
              | Some s => Some (fst (ParseUint s))
              | None => Count c
              end;
     Sort := (Sort c ++ match firstValue (q !! "sort") with
                        | Some s => sortsOf (Split s ",")
                        | None => []
                        end)%list;
     PropFilters := (PropFilters c ++ filtersOf entries)%list |}.

(** The line logged for a number that did not parse. *)
Definition parseWarning {A E : Type} (r : A * option E) (line : string)
  : list string :=
  match snd r with Some _ => [line] | None => [] end.

(** The lines [pop] logs for [page], [count] and [sort], in that order. *)
Definition reservedWarnings (q : Values) : list string :=
  (match firstValue (q !! "page") with
   | Some s => parseWarning (ParseInt s) pageWarning
   | None => []
   end ++
   match firstValue (q !! "count") with
   | Some s => parseWarning (ParseUint s) countWarning
   | None => []
   end ++
   match firstValue (q !! "sort") with
   | Some s => sortWarnings (Split s ",")
   | None => []
   end)%list.

(** ** Registered collections *)

(** A name that [path.Clean] leaves alone as a path segment. *)
Definition cleanName (name : string) : bool :=
  slashFree name && negb (String.eqb name "") && negb (String.eqb name ".")
  && negb (String.eqb name "..").

(** The multiplexer holds the two routes [CreateApiObject] makes for [ec]. *)
Definition registered {W : World} (mux : ServeMux) (ec : EntityCollection) : Prop :=
  m mux !! ("/" ++ GetRestName ec)
    = Some {| h := pluralRoute ec; pattern := "/" ++ GetRestName ec |} /\
  m mux !! ("/" ++ GetRestName ec ++ "/")
    = Some {| h := singularRoute ec; pattern := "/" ++ GetRestName ec ++ "/" |}.

(** The methods [applyCorsHeaders] hands on to the wrapped handler. *)
Definition forwardedMethods : list string := ["GET"; "PUT"; "POST"; "DELETE"].

(** ** The earlier handlers

    The earlier revision of the file builds both handlers inside
    [entityApiHandlerFactory], parses the path in the plural handler itself
    and answers every failure with status 500. *)

Section Earlier.

Context {W : World}.

(** The singular handler of the earlier [entityApiHandlerFactory]. *)
Definition earlierSingularHandler (ec : EntityCollection) : Handler := fun r =>
  let pathComponents := pathComponentsOf (URLPath r) in
  last <- lift (indexZ pathComponents (len pathComponents - 1)) ;;
  let '(entityUuid, err) := FromString last in
  match err with
  | Some e =>
      logLine (Error e) ;;;
      httpError "error decoding UUID" StatusInternalServerError
  | None =>
      if String.eqb (Method r) "PUT" then
        let '(b, err) := Body r in
        match err with
        | Some e =>
            httpError ("error parsing request body: " ++ Error e)
                      StatusInternalServerError
        | None =>
            match EditEntity ec entityUuid b with
            | Some e =>
                httpError ("error editing entity: " ++ Error e)
                          StatusInternalServerError
            | None => ret tt
            end
        end
      else if String.eqb (Method r) "DELETE" then
        match DelEntity ec entityUuid with
        | Some e =>
            httpError ("error deleting entity: " ++ Error e)
                      StatusInternalServerError
        | None => ret tt
        end
      else if String.eqb (Method r) "GET" then
        let '(u, err) := GetEntity ec entityUuid in
        match err with
        | Some _ => httpError "could not find entity" StatusInternalServerError
        | None =>
            let '(ej, err) := jsonMarshalEntity u in
            match err with
            | Some _ => httpError "error encoding JSON" StatusInternalServerError
            | None => Fprint ej
            end
        end
      else ret tt
  end.

(** The loop of the earlier plural handler over what is left of
    [pathComponents]: the map, or the name and the error at the first
    identifier that does not parse. *)
Fixpoint earlierParentLoop (pcs : list string) (parentEntityUuids : gmap string UUID)
  : gmap string UUID * option (string * error) :=
  match pcs with
  | name :: ident :: rest =>
      let '(u, err) := FromString ident in
      let parentEntityUuids := <[name := u]> parentEntityUuids in
      match err with
      | Some e => (parentEntityUuids, Some (name, e))
      | None => earlierParentLoop rest parentEntityUuids
      end
  | _ => (parentEntityUuids, None)
  end.

(** [switch r.Method] of the earlier plural handler, reached with the
    parent map once the path has parsed. *)
Definition earlierPluralSwitch (ec : EntityCollection) (r : Request)
    (parentEntityUuids : gmap string UUID) : M HState unit :=
  if String.eqb (Method r) "GET" then
    res <- runPop (Query r) ;;
    let '(c, err) := GetCollection ec parentEntityUuids (snd res) in
    match err with
    | Some e =>
        logLine (Error e) ;;;
        httpError "error retrieving collection" StatusInternalServerError
    | None =>
        let '(ej, err) := jsonMarshalCollection c in
        match err with
        | Some _ => httpError "error decoding JSON" StatusInternalServerError
        | None => Fprint ej
        end
    end
  else if String.eqb (Method r) "POST" then
    let '(b, err) := Body r in
    match err with
    | Some e =>
        httpError ("error parsing request body: " ++ Error e)
                  StatusInternalServerError
    | None =>
        let '(entityPath, err) :=
          CreateEntity ec (getRequestorFromRequest r) parentEntityUuids b in
        match err with
        | Some e =>
            httpError ("error creating entity: " ++ Error e)
                      StatusInternalServerError
        | None =>
            headerSet "Location" entityPath ;;;
            WriteHeader StatusCreated
        end
    end
  else ret tt.

(** The plural handler of the earlier [entityApiHandlerFactory]. *)
Definition earlierPluralHandler (ec : EntityCollection) : Handler := fun r =>
  let pathComponents := pathComponentsOf (URLPath r) in
  if negb (len pathComponents mod 2 =? 1)%Z then
    logLine "collection entity URL should have an even number of components (entity name and UUID for each parent entity and name for entity)" ;;;
    httpError "error parsing URL" StatusInternalServerError
  else
    let '(parentEntityUuids, failed) := earlierParentLoop pathComponents ∅ in
    match failed with
    | Some (name, e) =>
        logLine ("error decoding UUID of path component:  " ++ name ++ " :  "
                 ++ Error e) ;;;
        httpError "error parsing URL" StatusInternalServerError
    | None =>
        earlierPluralSwitch ec r parentEntityUuids
    end.

(** The earlier [entityApiHandlerFactory(ec)]. *)
Definition earlierEntityApiHandlerFactory (ec : EntityCollection)
  : Handler * Handler :=
  (earlierSingularHandler ec, earlierPluralHandler ec).

End Earlier.

(** A collection named [gadgets] over the canonical world whose operations
    never fail. *)
Definition gadgets : @EntityCollection Canonical.world :=
  @mkEntityCollection Canonical.world
    "gadgets"
    (fun _ _ _ => ("/gadgets/00000000-0000-0000-0000-000000000001", None))
    (fun _ => ("{}" : string, None))
    (fun _ _ => ({| TotalEntities := 1; Entities := ["{}" : string] |}, None))
    (fun _ _ => None)
    (fun _ => None).

(** The canonical world before [SetRequestorAuthFn] was called: the function
    variable [getRequestor] is still nil. *)
Definition unconfiguredWorld : World := {|
  UUID := N;
  Entity := string;
  FromString := Canonical.fromString;
  jsonMarshalEntity := fun e => (e, None);
  jsonMarshalCollection := fun c => (String.concat "," (Entities c), None);
  sprintEntity := fun e => e;
  sprintCollection := fun c => String.concat " " (Entities c);
  getRequestor := None;
  rangeOrder := map_to_list
|}.

(** * Properties *)

(** ** The monad *)

Lemma bind_Done {S A B} (mm : M S A) (k : A -> M S B) s a s' :
  mm s = Done (a, s') -> bind mm k s = k a s'.
Proof. intros Hm. unfold bind. now rewrite Hm. Qed.

Lemma bind_Panic {S A B} (mm : M S A) (k : A -> M S B) s reason :
  mm s = Panic reason -> bind mm k s = Panic reason.
Proof. intros Hm. unfold bind. now rewrite Hm. Qed.

Lemma bind_inv {S A B} (mm : M S A) (k : A -> M S B) s b s2 :
  bind mm k s = Done (b, s2) ->
  exists a s1, mm s = Done (a, s1) /\ k a s1 = Done (b, s2).
Proof.
  unfold bind. destruct (mm s) as [[a s1]|reason]; [|discriminate].
  intros Hk. now exists a, s1.
Qed.

(** A loop whose body always returns, returns. *)
Lemma forRange_returns {S A} (l : list A) (body : A -> M S unit) :
  (forall x s, In x l -> exists s', body x s = Done (tt, s')) ->
  forall s, exists s', forRange l body s = Done (tt, s').
Proof.
  induction l as [|x l IH]; intros Hbody s; simpl.
  - now exists s.
  - destruct (Hbody x s) as [s1 Hx]; [now left|].
    rewrite (bind_Done _ _ _ _ _ Hx).
    apply IH. intros y s2 Hy. apply Hbody. now right.
Qed.

(** A loop panics as soon as one iteration does. *)
Lemma forRange_panics {S A} (l1 l2 : list A) (x : A) (body : A -> M S unit) :
  (forall y s, In y l1 -> exists s', body y s = Done (tt, s')) ->
  (forall s, exists reason, body x s = Panic reason) ->
  forall s, exists reason, forRange (l1 ++ x :: l2)%list body s = Panic reason.
Proof.
  induction l1 as [|y l1 IH]; intros Hok Hbad s; simpl.
  - destruct (Hbad s) as [reason Hx]. exists reason. now apply bind_Panic.
  - destruct (Hok y s) as [s1 Hy]; [now left|].
    rewrite (bind_Done _ _ _ _ _ Hy).
    apply IH; [|exact Hbad]. intros z s2 Hz. apply Hok. now right.
Qed.

(** ** Query-filter parser: when the slices stay in range *)

Lemma popSortElem_in_range ss st :
  sortElemInRange ss = true -> exists st', popSortElem ss st = Done (tt, st').
Proof.
  unfold sortElemInRange, popSortElem, bind, lift, slice_to, slice_from.
  intros Hr. apply andb_true_iff in Hr as [H4 Hr]. rewrite H4.
  destruct (String.eqb (takeBytes 4 ss) "asc.") eqn:Ha.
  - eexists. reflexivity.
  - rewrite orb_false_l in Hr. rewrite Hr.
    destruct (String.eqb (takeBytes 5 ss) "desc."); eexists; reflexivity.
Qed.

Lemma popSortElem_out_of_range ss st :
  sortElemInRange ss = false -> exists reason, popSortElem ss st = Panic reason.
Proof.
  unfold sortElemInRange, popSortElem, bind, lift, slice_to, slice_from.
  intros Hr. destruct (4 <=? String.length ss)%nat eqn:H4.
  - rewrite andb_true_l in Hr. apply orb_false_iff in Hr as [Ha H5].
    rewrite Ha, H5. eexists. reflexivity.
  - eexists. reflexivity.
Qed.

Lemma popFilterValue_in_range k v st :
  filterValueInRange v = true -> exists st', popFilterValue k v st = Done (tt, st').
Proof.
  unfold filterValueInRange, popFilterValue, bind, lift, slice_to.
  intros Hr. apply andb_true_iff in Hr as [H3 Hr]. rewrite H3.
  destruct (String.eqb (takeBytes 3 v) "lt.") eqn:Ha.
  - eexists. reflexivity.
  - rewrite orb_false_l in Hr. rewrite Hr.
    destruct (String.eqb (takeBytes 5 v) "lteq."); [eexists; reflexivity|].
    destruct (String.eqb (takeBytes 3 v) "eq."); [eexists; reflexivity|].
    destruct (String.eqb (takeBytes 3 v) "gt."); [eexists; reflexivity|].
    destruct (String.eqb (takeBytes 5 v) "gteq."); eexists; reflexivity.
Qed.

Lemma popFilterValue_out_of_range k v st :
  filterValueInRange v = false -> exists reason, popFilterValue k v st = Panic reason.
Proof.
  unfold filterValueInRange, popFilterValue, bind, lift, slice_to.
  intros Hr. destruct (3 <=? String.length v)%nat eqn:H3.
  - rewrite andb_true_l in Hr. apply orb_false_iff in Hr as [Ha H5].
    rewrite Ha, H5. eexists. reflexivity.
  - eexists. reflexivity.
Qed.

Lemma popSort_in_range s st :
  forallb sortElemInRange (Split s ",") = true ->
  exists st', popSort s st = Done (tt, st').
Proof.
  intros Hall. unfold popSort. apply forRange_returns.
  intros ss st0 Hin. apply popSortElem_in_range.
  rewrite forallb_forall in Hall. now apply Hall.
Qed.

Lemma popFilter_in_range entries st :
  Forall (fun kv => forallb filterValueInRange (snd kv) = true) entries ->
  exists st', popFilter entries st = Done (tt, st').
Proof.
  intros Hall. unfold popFilter. apply forRange_returns.
  intros kv st0 Hin. apply forRange_returns.
  intros v st1 Hv. apply popFilterValue_in_range.
  rewrite Forall_forall in Hall. specialize (Hall kv).
  rewrite forallb_forall in Hall. apply Hall; [|exact Hv].
  now apply list_elem_of_In.
Qed.

(** ** [pop]: the error it returns *)

(** [pop] has a single [return nil]. *)
Lemma pop_error_nil ro q st e st' :
  pop ro q st = Done (e, st') -> e = None.
Proof.
  unfold pop. intros Hpop.
  repeat (apply bind_inv in Hpop as (? & ? & _ & Hpop)).
  unfold ret in Hpop. congruence.
Qed.

Lemma firstValue_step (o : option (list string)) ok (body : string -> M FilterState unit) st :
  firstValueOk o ok = true ->
  (forall s st0, ok s = true -> exists st1, body s st0 = Done (tt, st1)) ->
  exists st1,
    match o with
    | Some l => s <- lift (index l 0) ;; body s
    | None => ret tt
    end st = Done (tt, st1).
Proof.
  intros Hok Hbody. destruct o as [[|s l]|]; simpl in Hok.
  - discriminate.
  - unfold bind, lift, index. simpl. now apply Hbody.
  - now exists st.
Qed.

Lemma pop_in_range ro q st :
  legalOrder ro -> popInRange q = true ->
  exists st', pop ro q st = Done (None, st').
Proof.
  intros Hro Hr. unfold popInRange in Hr.
  apply andb_true_iff in Hr as [Hr Hfilters].
  apply andb_true_iff in Hr as [Hr Hsort].
  apply andb_true_iff in Hr as [Hr Hcount].
  unfold pop.
  edestruct (firstValue_step (q !! "page")) as [st1 H1]; [exact Hr| |].
  2: { rewrite (bind_Done _ _ _ _ _ H1).
       edestruct (firstValue_step (delete "page" q !! "count")) as [st2 H2];
         [eassumption| |].
       2: { rewrite (bind_Done _ _ _ _ _ H2).
            edestruct (firstValue_step (delete "count" (delete "page" q) !! "sort"))
              as [st3 H3]; [eassumption| |].
            2: { rewrite (bind_Done _ _ _ _ _ H3).
                 destruct (popFilter_in_range
                             (ro (delete "sort" (delete "count" (delete "page" q)))) st3)
                   as [st4 H4].
                 - apply Forall_forall. intros kv Hin.
                   rewrite forallb_forall in Hfilters. apply Hfilters.
                   apply list_elem_of_In. now rewrite <- (Hro _).
                 - rewrite (bind_Done _ _ _ _ _ H4). now exists st4. }
            intros s st0 Hs. now apply popSort_in_range. }
       intros s st0 _. cbv beta. destruct (ParseUint s) as [count [err|]];
         eexists; reflexivity. }
  intros s st0 _. cbv beta. destruct (ParseInt s) as [page [err|]];
    eexists; reflexivity.
Qed.

(** ** Query-filter parser: what [popFilter] stores *)


(** The short prefixes are classified as written. *)
Lemma popFilterValue_short_prefixes (k : string) (a b : ascii) (rest : string)
    (st : FilterState) :
  popFilterValue k ("lt." ++ rest) st
    = appendPropFilter {| Comp := LT; FieldName := k; Value := "lt." |} st /\
  popFilterValue k ("eq." ++ String a (String b rest)) st
    = appendPropFilter {| Comp := EQ; FieldName := k; Value := "eq." |} st /\
  popFilterValue k ("gt." ++ String a (String b rest)) st
    = appendPropFilter {| Comp := GT; FieldName := k; Value := "gt." |} st.
Proof. repeat split; reflexivity. Qed.

(** C1: on the query [?page=2&count=10&sort=asc.name,desc.age&status=eq.active]
    the property filter stored for [status] has the value [eq.], the prefix,
    and not [active]; and for each of the five prefixes, on every value that
    starts with it and is long enough to be sliced, the value stored is the
    prefix. *)
Theorem popFilter_value_is_prefix :
  pop map_to_list specQuery freshFilter =
    Done (None,
          {| cf := {| Page := Some 2%Z; Count := Some 10%Z;
                      Sort := [ {| SortOrder := ASC; SortFieldName := "name" |};
                                {| SortOrder := DESC; SortFieldName := "age" |} ];
                      PropFilters :=
                        [ {| Comp := EQ; FieldName := "status"; Value := "eq." |} ] |};
             logged := [] |}) /\
  forall (k : string) (a b : ascii) (rest : string) (st : FilterState),
    popFilterValue k ("lt." ++ rest) st
      = appendPropFilter {| Comp := LT; FieldName := k; Value := "lt." |} st /\
    popFilterValue k ("lteq." ++ rest) st
      = appendPropFilter {| Comp := LTEQ; FieldName := k; Value := "lteq." |} st /\
    popFilterValue k ("eq." ++ String a (String b rest)) st
      = appendPropFilter {| Comp := EQ; FieldName := k; Value := "eq." |} st /\
    popFilterValue k ("gt." ++ String a (String b rest)) st
      = appendPropFilter {| Comp := GT; FieldName := k; Value := "gt." |} st /\
    popFilterValue k ("gteq." ++ rest) st
      = appendPropFilter {| Comp := GTEQ; FieldName := k; Value := "gteq." |} st.
Proof.
  split; [vm_compute; reflexivity|].
  intros k a b rest st. repeat split; reflexivity.
Qed.

(** C2: [popSort] and [popFilter] panic on elements shorter than the prefixes
    they slice: the sort strings [a] and the empty string, the filter values
    [lt], the empty string and [eq.1], and [pop] on the queries [?sort=a]
    and [?name=eq.1]. *)
Theorem popSort_popFilter_panic_on_short_values (st : FilterState) :
  popSort "a" st = Panic "slice bounds out of range" /\
  popSort "" st = Panic "slice bounds out of range" /\
  popSort "asc.name,x" st = Panic "slice bounds out of range" /\
  popFilter [("name", ["lt"])] st = Panic "slice bounds out of range" /\
  popFilter [("name", [""])] st = Panic "slice bounds out of range" /\
  popFilter [("name", ["eq.1"])] st = Panic "slice bounds out of range" /\
  pop map_to_list {[ "sort" := ["a"] ]} st = Panic "slice bounds out of range" /\
  pop map_to_list {[ "name" := ["eq.1"] ]} st = Panic "slice bounds out of range".
Proof. repeat split; vm_compute; reflexivity. Qed.

(** Whether an iteration panics is decided by the length tests alone. *)
Lemma parser_panics_iff_out_of_range (k s : string) (st : FilterState) :
  panics (popSortElem s st) = negb (sortElemInRange s) /\
  panics (popFilterValue k s st) = negb (filterValueInRange s).
Proof.
  split.
  - destruct (sortElemInRange s) eqn:Hr.
    + destruct (popSortElem_in_range s st Hr) as [st' ->]. reflexivity.
    + destruct (popSortElem_out_of_range s st Hr) as [reason ->]. reflexivity.
  - destruct (filterValueInRange s) eqn:Hr.
    + destruct (popFilterValue_in_range k s st Hr) as [st' ->]. reflexivity.
    + destruct (popFilterValue_out_of_range k s st Hr) as [reason ->]. reflexivity.
Qed.

(** ** [pop]: page and count *)

(** C3: when the first [page] value does not parse, [pop] warns and still
    stores a pointer: [Page] is the number [ParseInt] returned with its
    error (0 for [abc]), not nil; likewise [Count] for [count] (0 for
    [-1]). *)
Theorem pop_sets_page_and_count_on_parse_failure :
  (forall (s : string) (st : FilterState), exists st',
      pop map_to_list {[ "page" := [s] ]} st = Done (None, st') /\
      Page (cf st') = Some (fst (ParseInt s))) /\
  (forall (s : string) (st : FilterState), exists st',
      pop map_to_list {[ "count" := [s] ]} st = Done (None, st') /\
      Count (cf st') = Some (fst (ParseUint s))) /\
  ParseInt "abc" = (0%Z, Some ErrSyntax) /\
  ParseUint "-1" = (0%Z, Some ErrSyntax) /\
  pop map_to_list {[ "page" := ["abc"]; "count" := ["-1"] ]} freshFilter =
    Done (None,
          {| cf := {| Page := Some 0%Z; Count := Some 0%Z;
                      Sort := []; PropFilters := [] |};
             logged := [pageWarning; countWarning] |}).
Proof.
  split; [|split; [|repeat split; vm_compute; reflexivity]].
  - intros s st. unfold pop.
    rewrite lookup_singleton_eq, delete_singleton_eq.
    rewrite !delete_empty, !lookup_empty, map_to_list_empty.
    unfold bind, lift, index. simpl.
    destruct (ParseInt s) as [page [err|]]; eexists; split; reflexivity.
  - intros s st. unfold pop.
    rewrite lookup_singleton_ne by discriminate.
    rewrite delete_singleton_ne by discriminate.
    rewrite lookup_singleton_eq, delete_singleton_eq.
    rewrite !delete_empty, !lookup_empty, map_to_list_empty.
    unfold bind, lift, index. simpl.
    destruct (ParseUint s) as [count [err|]]; eexists; split; reflexivity.
Qed.

(** ** [pop]: its error and the plural handler *)

Section FilterError.

Context {W : World}.

Lemma runPop_error_nil q st res st' :
  runPop q st = Done (res, st') -> fst res = None.
Proof.
  unfold runPop.
  destruct (pop rangeOrder q _) as [[err fs]|reason] eqn:Hpop; [|discriminate].
  intros Hres. injection Hres as <- _. simpl. eapply pop_error_nil, Hpop.
Qed.

(** The GET case of the plural handler behaves as if the branch on the
    error of [pop] were not there. *)
Lemma pluralGet_skips_filterErrorBranch ec r parentEntityUuids st :
  pluralGet ec r parentEntityUuids st =
  (res <- runPop (Query r) ;; collectionResponse ec parentEntityUuids (snd res)) st.
Proof.
  unfold pluralGet, bind.
  destruct (runPop (Query r) st) as [[res st']|reason] eqn:Hrun; [|reflexivity].
  rewrite (runPop_error_nil _ _ _ _ Hrun). reflexivity.
Qed.

End FilterError.

(** C9: [pop] does not return a nil error for every request: on the query
    [?sort=a] it panics in [popSort], under every iteration order and from
    every state, and so does the plural handler's call of it, which
    therefore gets no error value at all.  Apart from that, the claim
    holds: no run of [pop] returns a non-nil error; [pop] returns nil on
    every request whose slice and index expressions stay in range; and the
    branch of the plural GET handler that answers [error parsing collection
    filters] is never taken: the handler equals the one without it. *)
Theorem pop_error_is_nil_and_filter_branch_dead {W : World} :
  (forall (ro : RangeOrder) (st : FilterState),
      pop ro {[ "sort" := ["a"] ]} st = Panic "slice bounds out of range") /\
  (forall st : HState,
      runPop {[ "sort" := ["a"] ]} st = Panic "slice bounds out of range") /\
  (forall (ro : RangeOrder) (q : Values) (st st' : FilterState) (e : error),
      pop ro q st <> Done (Some e, st')) /\
  (forall (ro : RangeOrder) (q : Values) (st : FilterState),
      legalOrder ro -> popInRange q = true ->
      exists st', pop ro q st = Done (None, st')) /\
  (forall (ec : EntityCollection) (r : Request)
          (parentEntityUuids : gmap string UUID) (st : HState),
      pluralGet ec r parentEntityUuids st =
      (res <- runPop (Query r) ;;
       collectionResponse ec parentEntityUuids (snd res)) st) /\
  (forall (q : Values) (st : HState) (res : option error * CollFilter) (st' : HState),
      runPop q st = Done (res, st') -> filterErrorBranch (fst res) = ret tt).
Proof.
  split; [|split; [|split; [|split; [|split]]]].
  - intros ro st. vm_compute. reflexivity.
  - intros st. vm_compute. reflexivity.
  - intros ro q st st' e Hpop. apply pop_error_nil in Hpop. discriminate.
  - intros ro q st. apply pop_in_range.
  - apply pluralGet_skips_filterErrorBranch.
  - intros q st res st' Hrun. now rewrite (runPop_error_nil _ _ _ _ Hrun).
Qed.

Lemma pop_error_is_nil_and_filter_branch_dead_witness :
  legalOrder map_to_list /\ popInRange specQuery = true /\
  exists st', pop map_to_list specQuery freshFilter = Done (None, st').
Proof.
  assert (Hro : legalOrder map_to_list) by (intros q; reflexivity).
  assert (Hr : popInRange specQuery = true) by (vm_compute; reflexivity).
  split; [exact Hro|]. split; [exact Hr|].
  exact (proj1 (proj2 (proj2 (proj2
           (@pop_error_is_nil_and_filter_branch_dead Canonical.world))))
           map_to_list specQuery freshFilter Hro Hr).
Defined.

(** ** Identifier-path parser *)

Section PathParser.

Context {W : World}.

Local Open Scope Z_scope.

Lemma len_cons2 {A} (x y : A) (l : list A) :
  len (x :: y :: l) mod 2 = len l mod 2.
Proof.
  unfold len. simpl length. rewrite !Nat2Z.inj_succ.
  replace (Z.succ (Z.succ (Z.of_nat (length l)))) with (Z.of_nat (length l) + 1 * 2) by lia.
  apply Z_mod_plus_full.
Qed.

Lemma len_flattenPairs_even (pairs : list (string * string)) :
  len (flattenPairs pairs) mod 2 = 0.
Proof.
  induction pairs as [|[name ident] pairs IH]; [reflexivity|].
  simpl flattenPairs. now rewrite len_cons2.
Qed.

Lemma len_flattenPairs_app (pairs : list (string * string)) (l : list string) :
  len (flattenPairs pairs ++ l)%list mod 2 = len l mod 2.
Proof.
  induction pairs as [|[name ident] pairs IH]; [reflexivity|].
  simpl flattenPairs. simpl app. now rewrite len_cons2.
Qed.

(** The loop on pairs that all parse, followed by at most one component. *)
Lemma parentLoop_valid pairs (last : list string) acc :
  Forall (fun p => snd (FromString (snd p)) = None) pairs ->
  (length last <= 1)%nat ->
  parentLoop (flattenPairs pairs ++ last)%list acc
  = (insertAll (parsedPairs pairs) acc, None).
Proof.
  intros Hok Hlast. revert acc.
  induction Hok as [|[name ident] pairs Hp Hok IH]; intros acc.
  - simpl. destruct last as [|t [|t' last]]; simpl in *; try reflexivity; lia.
  - simpl in Hp. simpl flattenPairs. simpl app. simpl parentLoop.
    destruct (FromString ident) as [u err] eqn:Hid. simpl in Hp. subst err.
    rewrite IH. unfold parsedPairs. simpl. now rewrite Hid.
Qed.

(** The loop stops at the first identifier that does not parse. *)
Lemma parentLoop_invalid good name ident rest e acc :
  Forall (fun p => snd (FromString (snd p)) = None) good ->
  snd (FromString ident) = Some e ->
  parentLoop (flattenPairs good ++ name :: ident :: rest)%list acc
  = (∅, Some (parseUUIDError name e)).
Proof.
  intros Hok Hbad. revert acc.
  induction Hok as [|[n i] good Hp Hok IH]; intros acc.
  - simpl. destruct (FromString ident) as [u err]. simpl in Hbad. now subst err.
  - simpl in Hp. simpl flattenPairs. simpl app. simpl parentLoop.
    destruct (FromString i) as [u err]. simpl in Hp. subst err. apply IH.
Qed.

(** Induction on a list two elements at a time. *)
Lemma list_pair_ind {A} (P : list A -> Prop) :
  P [] -> (forall x, P [x]) -> (forall x y l, P l -> P (x :: y :: l)) ->
  forall l, P l.
Proof.
  intros Hnil Hone Hstep l.
  assert (Hboth : P l /\ forall x, P (x :: l)).
  { induction l as [|y l [IHl IHxl]]; [now split|].
    split; [apply IHxl|]. intros x. now apply Hstep. }
  apply Hboth.
Qed.

(** An error always comes with the empty map. *)
Lemma parentLoop_error_empty pcs acc e :
  snd (parentLoop pcs acc) = Some e -> fst (parentLoop pcs acc) = ∅.
Proof.
  revert acc. induction pcs as [| x | name ident rest IH] using list_pair_ind;
    intros acc; simpl; try discriminate.
  destruct (FromString ident) as [u [err|]]; [reflexivity|apply IH].
Qed.

(** A loop that ends without error went through pairs that parse. *)
Lemma parentLoop_ok_inv pcs acc :
  len pcs mod 2 = 1 -> snd (parentLoop pcs acc) = None ->
  exists pairs terminal,
    pcs = (flattenPairs pairs ++ [terminal])%list /\
    Forall (fun p => snd (FromString (snd p)) = None) pairs.
Proof.
  revert acc. induction pcs as [| x | name ident rest IH] using list_pair_ind;
    intros acc Hodd Hnone.
  - discriminate.
  - exists [], x. now split.
  - rewrite len_cons2 in Hodd. simpl in Hnone.
    destruct (FromString ident) as [u [err|]] eqn:Hid; [discriminate|].
    destruct (IH _ Hodd Hnone) as (pairs & terminal & -> & Hok).
    exists ((name, ident) :: pairs), terminal. split; [reflexivity|].
    constructor; [simpl; now rewrite Hid|exact Hok].
Qed.

Lemma len_mod2_cases {A} (l : list A) : len l mod 2 = 0 \/ len l mod 2 = 1.
Proof. pose proof (Z.mod_pos_bound (len l) 2). lia. Qed.

Lemma getPathComponentUuids_odd path :
  len (pathComponentsOf path) mod 2 = 1 ->
  getPathComponentUuids path = parentLoop (pathComponentsOf path) ∅.
Proof.
  intros Hodd. unfold getPathComponentUuids. rewrite Hodd. reflexivity.
Qed.

Lemma getPathComponentUuids_even path :
  len (pathComponentsOf path) mod 2 = 0 ->
  getPathComponentUuids path = (∅, Some (pathComponentError path)).
Proof.
  intros Heven. unfold getPathComponentUuids. rewrite Heven. reflexivity.
Qed.

End PathParser.

(** C4: [getPathComponentUuids] returns an error exactly on malformed paths,
    and always with the empty map: on an even number of components it
    returns the empty map and [pathComponentError] of the path; on an odd
    number, at the first identifier that does not parse it returns the empty
    map and [parseUUIDError] with the name in front of that identifier and
    the parse error; and it returns no error exactly on the paths made of
    pairs that parse followed by one name. *)
Theorem getPathComponentUuids_error_cases {W : World} :
  (forall path : string,
      (len (pathComponentsOf path) mod 2 = 0)%Z ->
      getPathComponentUuids path = (∅, Some (pathComponentError path))) /\
  (forall (path : string) (good : list (string * string))
          (name ident : string) (rest : list string) (e : error),
      (len (pathComponentsOf path) mod 2 = 1)%Z ->
      pathComponentsOf path = (flattenPairs good ++ name :: ident :: rest)%list ->
      Forall (fun p => snd (FromString (snd p)) = None) good ->
      snd (FromString ident) = Some e ->
      getPathComponentUuids path = (∅, Some (parseUUIDError name e))) /\
  (forall path : string,
      snd (getPathComponentUuids path) = None <-> validPluralPath path) /\
  (forall (path : string) (e : error),
      snd (getPathComponentUuids path) = Some e ->
      fst (getPathComponentUuids path) = ∅).
Proof.
  split; [|split; [|split]].
  - apply getPathComponentUuids_even.
  - intros path good name ident rest e Hodd Hpcs Hok Hbad.
    rewrite (getPathComponentUuids_odd _ Hodd), Hpcs.
    now apply parentLoop_invalid.
  - intros path. split.
    + intros Hnone. destruct (len_mod2_cases (pathComponentsOf path)) as [Heven|Hodd].
      * rewrite (getPathComponentUuids_even _ Heven) in Hnone. discriminate.
      * rewrite (getPathComponentUuids_odd _ Hodd) in Hnone.
        exact (parentLoop_ok_inv _ _ Hodd Hnone).
    + intros (pairs & terminal & Hpcs & Hok).
      assert (Hodd : (len (pathComponentsOf path) mod 2 = 1)%Z).
      { rewrite Hpcs, len_flattenPairs_app. reflexivity. }
      rewrite (getPathComponentUuids_odd _ Hodd), Hpcs.
      rewrite parentLoop_valid; [reflexivity|exact Hok|simpl; lia].
  - intros path e Herr.
    destruct (len_mod2_cases (pathComponentsOf path)) as [Heven|Hodd].
    + now rewrite (getPathComponentUuids_even _ Heven).
    + rewrite (getPathComponentUuids_odd _ Hodd) in *.
      eapply parentLoop_error_empty, Herr.
Qed.

Lemma getPathComponentUuids_error_cases_witness :
  @getPathComponentUuids Canonical.world "/foo/bar"
    = (∅, Some (pathComponentError "/foo/bar")) /\
  @getPathComponentUuids Canonical.world
      "/a/6ba7b810-9dad-11d1-80b4-00c04fd430c8/b/zzz/c/yyy/d"
    = (∅, Some (parseUUIDError "b" (errorString "uuid: incorrect UUID length"))) /\
  @validPluralPath Canonical.world "/foo/6ba7b810-9dad-11d1-80b4-00c04fd430c8/bar".
Proof.
  pose proof (@getPathComponentUuids_error_cases Canonical.world)
    as (Heven & Hfirst & Hvalid & _).
  split; [|split].
  - apply Heven. reflexivity.
  - apply (Hfirst _ [("a", "6ba7b810-9dad-11d1-80b4-00c04fd430c8")]
             "b" "zzz" ["c"; "yyy"; "d"]).
    + reflexivity.
    + reflexivity.
    + repeat constructor.
    + reflexivity.
  - apply Hvalid. vm_compute. reflexivity.
Defined.

(** ** Paths built from a map *)

Lemma append_cons (c : ascii) (a b : string) :
  String c a ++ b = String c (a ++ b).
Proof. reflexivity. Qed.

Lemma append_empty_r (s : string) : s ++ "" = s.
Proof.
  induction s as [|c s IH]; [reflexivity|].
  now rewrite append_cons, IH.
Qed.

Lemma Split_nonempty (s : string) (sep : ascii) : Split s sep <> [].
Proof.
  induction s as [|c s IH]; simpl; [discriminate|].
  destruct (Ascii.eqb c sep); [discriminate|].
  destruct (Split s sep); [contradiction|discriminate].
Qed.

(** A slash-free prefix stays in the first component. *)
Lemma Split_app_slashFree (a b : string) :
  slashFree a = true ->
  Split (a ++ b) "/" =
  match Split b "/" with
  | [] => [a]
  | w :: ws => (a ++ w) :: ws
  end.
Proof.
  induction a as [|c a IH]; intros Hfree.
  - change ("" ++ b) with b. pose proof (Split_nonempty b "/") as Hne.
    destruct (Split b "/"); [contradiction|reflexivity].
  - rewrite append_cons. simpl Split. simpl in Hfree. apply andb_true_iff in Hfree as [Hc Hfree].
    apply negb_true_iff in Hc. rewrite Hc, (IH Hfree).
    destruct (Split b "/"); reflexivity.
Qed.

Lemma Split_slash (c : string) : Split ("/" ++ c) "/" = "" :: Split c "/".
Proof. reflexivity. Qed.

Lemma Split_segment (a c : string) :
  slashFree a = true -> Split (a ++ "/" ++ c) "/" = a :: Split c "/".
Proof.
  intros Hfree. rewrite (Split_app_slashFree _ _ Hfree), Split_slash.
  now rewrite append_empty_r.
Qed.

Lemma Split_slashFree (a : string) :
  slashFree a = true -> Split a "/" = [a].
Proof.
  intros Hfree.
  assert (Hsplit : Split (a ++ "") "/" = [a ++ ""])
    by (now rewrite (Split_app_slashFree _ _ Hfree)).
  now rewrite append_empty_r in Hsplit.
Qed.

Lemma buildPath_rooted {U} (toString : U -> string) pairs terminal :
  exists rest, buildPath toString pairs terminal = String "/" rest.
Proof. destruct pairs as [|[name u] pairs]; simpl; eauto. Qed.

(** The components of a built path are its pairs and its terminal name. *)
Lemma pathComponentsOf_buildPath {U} (toString : U -> string) pairs terminal :
  Forall (fun p => slashFree (fst p) = true /\ slashFree (toString (snd p)) = true) pairs ->
  slashFree terminal = true ->
  pathComponentsOf (buildPath toString pairs terminal)
  = (flattenPairs (printedPairs toString pairs) ++ [terminal])%list.
Proof.
  intros Hfree Hterm. unfold pathComponentsOf.
  induction Hfree as [|[name u] pairs [Hn Hu] Hfree IH].
  - change (buildPath toString [] terminal) with ("/" ++ terminal).
    rewrite Split_slash, (Split_slashFree _ Hterm). reflexivity.
  - change (buildPath toString ((name, u) :: pairs) terminal)
      with ("/" ++ name ++ "/" ++ toString u ++ buildPath toString pairs terminal).
    simpl in Hn, Hu. rewrite Split_slash, (Split_segment _ _ Hn).
    destruct (buildPath_rooted toString pairs terminal) as [rest Hrest].
    rewrite Hrest in *. change (String "/" rest) with ("/" ++ rest) in *.
    rewrite (Split_segment _ _ Hu). rewrite Split_slash in IH.
    change (Split rest "/"
            = (flattenPairs (printedPairs toString pairs) ++ [terminal])%list) in IH.
    rewrite IH. reflexivity.
Qed.

(** ** The map the parser builds *)

Lemma insertAll_size_le {U} (pairs : list (string * U)) acc :
  (size (insertAll pairs acc) <= size acc + length pairs)%nat.
Proof.
  revert acc. induction pairs as [|[k v] pairs IH]; intros acc; simpl.
  - lia.
  - etransitivity; [apply IH|]. rewrite map_size_insert.
    destruct (acc !! k); simpl; lia.
Qed.

Lemma insertAll_NoDup {U} (pairs : list (string * U)) acc :
  NoDup (pairs.*1) -> insertAll pairs acc = list_to_map pairs ∪ acc.
Proof.
  revert acc. induction pairs as [|[k v] pairs IH]; intros acc Hnd; simpl.
  - now rewrite (left_id_L ∅ (∪)).
  - simpl in Hnd. apply NoDup_cons in Hnd as [Hk Hnd].
    rewrite (IH _ Hnd). rewrite <- insert_union_l.
    symmetry. apply insert_union_r. now apply not_elem_of_list_to_map_1.
Qed.

Lemma insertAll_app {U} (l1 l2 : list (string * U)) acc :
  insertAll (l1 ++ l2)%list acc = insertAll l2 (insertAll l1 acc).
Proof. unfold insertAll. apply foldl_app. Qed.

Lemma insertAll_lookup_notin {U} (pairs : list (string * U)) acc k :
  k ∉ pairs.*1 -> insertAll pairs acc !! k = acc !! k.
Proof.
  revert acc. induction pairs as [|[n v] pairs IH]; intros acc Hk; [reflexivity|].
  simpl in Hk. apply not_elem_of_cons in Hk as [Hne Hk].
  simpl. rewrite (IH _ Hk). now apply lookup_insert_ne.
Qed.

Lemma insertAll_lookup_last {U} (before after : list (string * U)) acc k v :
  k ∉ after.*1 ->
  insertAll (before ++ (k, v) :: after)%list acc !! k = Some v.
Proof.
  intros Hk. rewrite insertAll_app. simpl.
  rewrite (insertAll_lookup_notin _ _ _ Hk). apply lookup_insert_eq.
Qed.

Lemma parsedPairs_app {W : World} (l1 l2 : list (string * string)) :
  parsedPairs (l1 ++ l2)%list = (parsedPairs l1 ++ parsedPairs l2)%list.
Proof. unfold parsedPairs. apply map_app. Qed.

Section PathMap.

Context {W : World}.

Lemma parsedPairs_names (pairs : list (string * string)) :
  (parsedPairs pairs).*1 = pairs.*1.
Proof.
  induction pairs as [|[n i] pairs IH]; [reflexivity|].
  change ((parsedPairs ((n, i) :: pairs)).*1) with (n :: (parsedPairs pairs).*1).
  now rewrite IH.
Qed.

Lemma parsedPairs_length (pairs : list (string * string)) :
  length (parsedPairs pairs) = length pairs.
Proof. unfold parsedPairs. apply length_map. Qed.

Lemma parsedPairs_printedPairs (toString : UUID -> string) pairs :
  Forall (fun p => FromString (toString (snd p)) = (snd p, None)) pairs ->
  parsedPairs (printedPairs toString pairs) = pairs.
Proof.
  induction 1 as [|[n u] pairs Hp Hok IH]; [reflexivity|].
  change (parsedPairs (printedPairs toString ((n, u) :: pairs)))
    with ((n, fst (FromString (toString u)))
            :: parsedPairs (printedPairs toString pairs)).
  simpl in Hp. now rewrite Hp, IH.
Qed.

(** A valid path gives a map with at most one entry per pair, and exactly
    one per pair when the names differ. *)
Lemma getPathComponentUuids_valid path pairs terminal :
  pathComponentsOf path = (flattenPairs pairs ++ [terminal])%list ->
  Forall (fun p => snd (FromString (snd p)) = None) pairs ->
  getPathComponentUuids path = (insertAll (parsedPairs pairs) ∅, None).
Proof.
  intros Hpcs Hok.
  assert (Hodd : (len (pathComponentsOf path) mod 2 = 1)%Z).
  { rewrite Hpcs, len_flattenPairs_app. reflexivity. }
  rewrite (getPathComponentUuids_odd _ Hodd), Hpcs.
  apply parentLoop_valid; [exact Hok|simpl; lia].
Qed.

End PathMap.

(** C7, as stated, fails: a valid path with two pairs under the same name
    gives a map with one entry. *)
Lemma repeated_name_gives_fewer_entries :
  ~ (forall (path : string) (pairs : list (string * string)) (terminal : string),
       pathComponentsOf path = (flattenPairs pairs ++ [terminal])%list ->
       Forall (fun p => snd (Canonical.fromString (snd p)) = None) pairs ->
       size (fst (@getPathComponentUuids Canonical.world path)) = length pairs).
Proof.
  intros Hall.
  specialize (Hall
    "/a/6ba7b810-9dad-11d1-80b4-00c04fd430c8/a/6ba7b810-9dad-11d1-80b4-00c04fd430c9/b"
    [("a", "6ba7b810-9dad-11d1-80b4-00c04fd430c8");
     ("a", "6ba7b810-9dad-11d1-80b4-00c04fd430c9")] "b").
  assert (Hsize : size (fst (@getPathComponentUuids Canonical.world
    "/a/6ba7b810-9dad-11d1-80b4-00c04fd430c8/a/6ba7b810-9dad-11d1-80b4-00c04fd430c9/b"))
    = 1%nat) by (vm_compute; reflexivity).
  rewrite Hsize in Hall. simpl in Hall.
  assert (1 = 2)%nat as Habs; [|discriminate].
  apply Hall; [reflexivity|]. repeat constructor.
Qed.

(** C7, amended: a valid plural path with N pairs gives a map with at most N
    entries, and exactly N when the N names are pairwise distinct; in that
    map a name stands for the identifier of the last pair that carries it (a
    repeated name keeps only its last identifier) and a name in no pair is
    absent; and for every map, the path built from its pairs in any order,
    with slash-free names, slash-free identifier texts that parse back to the
    identifiers, and a slash-free terminal name, parses to the map itself. *)
Theorem getPathComponentUuids_size_and_roundtrip {W : World} :
  (forall (path : string) (pairs : list (string * string)) (terminal : string),
      pathComponentsOf path = (flattenPairs pairs ++ [terminal])%list ->
      Forall (fun p => snd (FromString (snd p)) = None) pairs ->
      exists mp : gmap string UUID,
        getPathComponentUuids path = (mp, None) /\
        (size mp <= length pairs)%nat /\
        (NoDup (pairs.*1) -> size mp = length pairs) /\
        (forall before name ident after,
            pairs = (before ++ (name, ident) :: after)%list ->
            name ∉ after.*1 ->
            mp !! name = Some (fst (FromString ident))) /\
        (forall name, name ∉ pairs.*1 -> mp !! name = None)) /\
  (forall (toString : UUID -> string) (mp : gmap string UUID)
          (pairs : list (string * UUID)) (terminal : string),
      pairs ≡ₚ map_to_list mp ->
      slashFree terminal = true ->
      Forall (fun p => slashFree (fst p) = true /\
                       slashFree (toString (snd p)) = true /\
                       FromString (toString (snd p)) = (snd p, None)) pairs ->
      getPathComponentUuids (buildPath toString pairs terminal) = (mp, None)).
Proof.
  split.
  - intros path pairs terminal Hpcs Hok.
    exists (insertAll (parsedPairs pairs) ∅). split; [|split; [|split; [|split]]].
    + now apply getPathComponentUuids_valid with terminal.
    + pose proof (insertAll_size_le (parsedPairs pairs) ∅) as Hle.
      rewrite map_size_empty, parsedPairs_length in Hle. exact Hle.
    + intros Hnd. rewrite insertAll_NoDup by (now rewrite parsedPairs_names).
      rewrite (right_id_L ∅ (∪)).
      rewrite map_size_list_to_map by (now rewrite parsedPairs_names).
      apply parsedPairs_length.
    + intros before name ident after -> Hlast.
      rewrite parsedPairs_app.
      change (parsedPairs ((name, ident) :: after))
        with ((name, fst (FromString ident)) :: parsedPairs after).
      apply insertAll_lookup_last. now rewrite parsedPairs_names.
    + intros name Hname.
      rewrite insertAll_lookup_notin by (now rewrite parsedPairs_names).
      apply lookup_empty.
  - intros toString mp pairs terminal Hperm Hterm Hpairs.
    assert (Hnd : NoDup (pairs.*1)).
    { rewrite Hperm. apply NoDup_fst_map_to_list. }
    rewrite (getPathComponentUuids_valid _ (printedPairs toString pairs) terminal).
    + rewrite parsedPairs_printedPairs.
      * rewrite (insertAll_NoDup _ _ Hnd), (right_id_L ∅ (∪)).
        rewrite (list_to_map_proper _ _ Hnd Hperm). now rewrite list_to_map_to_list.
      * eapply Forall_impl; [exact Hpairs|]. intros p (_ & _ & Hp). exact Hp.
    + apply pathComponentsOf_buildPath; [|exact Hterm].
      eapply Forall_impl; [exact Hpairs|]. intros p (Hn & Hu & _). now split.
    + unfold printedPairs. apply Forall_map.
      eapply Forall_impl; [exact Hpairs|]. intros p (_ & _ & Hp). simpl.
      now rewrite Hp.
Qed.

Lemma getPathComponentUuids_size_and_roundtrip_witness :
  (* a repeated name: one entry, holding the identifier of the last pair *)
  (@getPathComponentUuids Canonical.world
     "/a/00000000-0000-0000-0000-000000000001/a/00000000-0000-0000-0000-000000000002/b"
   = ({[ "a" := 2%N ]}, None)) /\
  (* two different names: two entries *)
  (size (fst (@getPathComponentUuids Canonical.world
     "/a/00000000-0000-0000-0000-000000000001/c/00000000-0000-0000-0000-000000000002/b"))
   = 2%nat) /\
  (* the round trip *)
  @getPathComponentUuids Canonical.world
    (buildPath Canonical.toString [("b", 2%N); ("a", 1%N)] "widgets")
  = ({[ "a" := 1%N; "b" := 2%N ]}, None).
Proof.
  pose proof (@getPathComponentUuids_size_and_roundtrip Canonical.world)
    as [Hsize Hround].
  split; [|split].
  - destruct (Hsize
      "/a/00000000-0000-0000-0000-000000000001/a/00000000-0000-0000-0000-000000000002/b"
      [("a", "00000000-0000-0000-0000-000000000001");
       ("a", "00000000-0000-0000-0000-000000000002")] "b")
      as (mp & Heq & Hle & _ & Hlast & Hnone).
    + reflexivity.
    + repeat constructor.
    + rewrite Heq. f_equal. apply map_eq. intros name.
      destruct (decide (name = "a")) as [->|Hne].
      * rewrite lookup_singleton_eq.
        apply (Hlast [("a", "00000000-0000-0000-0000-000000000001")] "a"
                 "00000000-0000-0000-0000-000000000002" []); [reflexivity|].
        apply not_elem_of_nil.
      * rewrite lookup_singleton_ne by congruence.
        apply Hnone. simpl. intros Hin.
        apply elem_of_cons in Hin as [Hin|Hin]; [congruence|].
        apply elem_of_cons in Hin as [Hin|Hin]; [congruence|].
        now apply not_elem_of_nil in Hin.
  - destruct (Hsize
      "/a/00000000-0000-0000-0000-000000000001/c/00000000-0000-0000-0000-000000000002/b"
      [("a", "00000000-0000-0000-0000-000000000001");
       ("c", "00000000-0000-0000-0000-000000000002")] "b")
      as (mp & Heq & _ & Hexact & _).
    + reflexivity.
    + repeat constructor.
    + rewrite Heq. apply Hexact. simpl.
      apply NoDup_cons. split.
      * intros Hin. apply elem_of_cons in Hin as [Hin|Hin]; [discriminate|].
        now apply not_elem_of_nil in Hin.
      * apply NoDup_singleton.
  - apply Hround.
    + let l := eval vm_compute in
        (map_to_list ({[ "a" := 1%N; "b" := 2%N ]} : gmap string N)) in
      change (map_to_list ({[ "a" := 1%N; "b" := 2%N ]} : gmap string N)) with l.
      first [reflexivity | apply perm_swap].
    + reflexivity.
    + repeat constructor.
Defined.

(** ** Responses to malformed identifiers *)

Section MalformedIdentifier.

Context {W : World}.

Lemma plural_malformed_parent_not_found ec r st good name ident rest e :
  (len (pathComponentsOf (URLPath r)) mod 2 = 1)%Z ->
  pathComponentsOf (URLPath r) = (flattenPairs good ++ name :: ident :: rest)%list ->
  Forall (fun p => snd (FromString (snd p)) = None) good ->
  snd (FromString ident) = Some e ->
  statusCode (resp st) = None ->
  exists st', getPluralHandler ec r st = Done (tt, st') /\
              statusCode (resp st') = Some StatusNotFound.
Proof.
  intros Hodd Hpcs Hok Hbad Hfresh. unfold getPluralHandler.
  rewrite (getPathComponentUuids_odd _ Hodd), Hpcs.
  rewrite (parentLoop_invalid _ _ _ _ _ _ Hok Hbad).
  destruct st as [[hd sc bd] lg]. simpl in Hfresh. subst sc.
  eexists. split; reflexivity.
Qed.

Lemma singular_malformed_identifier_bad_request ec r st last e :
  indexZ (pathComponentsOf (URLPath r)) (len (pathComponentsOf (URLPath r)) - 1)
    = Done last ->
  snd (FromString last) = Some e ->
  statusCode (resp st) = None ->
  exists st', getSingularHandler ec r st = Done (tt, st') /\
              statusCode (resp st') = Some StatusBadRequest.
Proof.
  intros Hlast Hbad Hfresh. unfold getSingularHandler.
  unfold bind at 1. unfold lift. rewrite Hlast.
  destruct (FromString last) as [u err]. simpl in Hbad. subst err.
  destruct st as [[hd sc bd] lg]. simpl in Hfresh. subst sc.
  eexists. split; reflexivity.
Qed.

End MalformedIdentifier.

(** C8, as stated, fails: on [/widgets/not-a-uuid] the singular handler
    answers with status 400, which is not the not-found status 404. *)
Lemma singular_malformed_identifier_is_not_not_found :
  ~ (forall (ec : @EntityCollection Canonical.world) (r : Request) (st st' : HState)
            (last : string) (e : error),
       indexZ (pathComponentsOf (URLPath r))
              (len (pathComponentsOf (URLPath r)) - 1) = Done last ->
       snd (Canonical.fromString last) = Some e ->
       statusCode (resp st) = None ->
       getSingularHandler ec r st = Done (tt, st') ->
       statusCode (resp st') = Some StatusNotFound).
Proof.
  intros Hall.
  pose (r := Canonical.request "GET" "/widgets/not-a-uuid").
  destruct (getSingularHandler Canonical.widgets r Canonical.start)
    as [[[] st']|reason] eqn:Hrun; [|vm_compute in Hrun; discriminate].
  specialize (Hall Canonical.widgets r Canonical.start st' "not-a-uuid"
                   (errorString "uuid: incorrect UUID length")
                   eq_refl eq_refl eq_refl Hrun).
  vm_compute in Hrun. injection Hrun as <-. discriminate Hall.
Qed.

(** C8, amended: a malformed parent identifier on a plural path is answered
    by [getPluralHandler] with the not-found status 404; a malformed terminal
    identifier on a singular path is answered by [getSingularHandler] with
    the bad-request status 400. *)
Theorem malformed_identifier_status {W : World}
    (ec : EntityCollection) (r : Request) (st : HState) :
  statusCode (resp st) = None ->
  (forall good name ident rest e,
      (len (pathComponentsOf (URLPath r)) mod 2 = 1)%Z ->
      pathComponentsOf (URLPath r) = (flattenPairs good ++ name :: ident :: rest)%list ->
      Forall (fun p => snd (FromString (snd p)) = None) good ->
      snd (FromString ident) = Some e ->
      exists st', getPluralHandler ec r st = Done (tt, st') /\
                  statusCode (resp st') = Some StatusNotFound) /\
  (forall last e,
      indexZ (pathComponentsOf (URLPath r))
             (len (pathComponentsOf (URLPath r)) - 1) = Done last ->
      snd (FromString last) = Some e ->
      exists st', getSingularHandler ec r st = Done (tt, st') /\
                  statusCode (resp st') = Some StatusBadRequest).
Proof.
  intros Hfresh. split.
  - intros good name ident rest e Hodd Hpcs Hok Hbad.
    now apply plural_malformed_parent_not_found with good name ident rest e.
  - intros last e Hlast Hbad.
    now apply singular_malformed_identifier_bad_request with last e.
Qed.

Lemma malformed_identifier_status_witness :
  (exists st',
      getPluralHandler Canonical.widgets
        (Canonical.request "GET" "/gadgets/not-a-uuid/widgets") Canonical.start
      = Done (tt, st') /\ statusCode (resp st') = Some StatusNotFound) /\
  (exists st',
      getSingularHandler Canonical.widgets
        (Canonical.request "GET" "/widgets/not-a-uuid") Canonical.start
      = Done (tt, st') /\ statusCode (resp st') = Some StatusBadRequest).
Proof.
  pose proof (@malformed_identifier_status Canonical.world Canonical.widgets)
    as Hstatus.
  split.
  - apply (proj1 (Hstatus (Canonical.request "GET" "/gadgets/not-a-uuid/widgets")
                          Canonical.start eq_refl)
             [] "gadgets" "not-a-uuid" ["widgets"]
             (errorString "uuid: incorrect UUID length")).
    + reflexivity.
    + reflexivity.
    + constructor.
    + reflexivity.
  - apply (proj2 (Hstatus (Canonical.request "GET" "/widgets/not-a-uuid")
                          Canonical.start eq_refl)
             "not-a-uuid" (errorString "uuid: incorrect UUID length")).
    + reflexivity.
    + reflexivity.
Defined.

(** ** The CORS wrapper *)

Lemma eqb_not_in (s : string) (l : list string) (x : string) :
  ~ In s l -> In x l -> String.eqb s x = false.
Proof.
  intros Hnot Hin. apply String.eqb_neq. intros ->. contradiction.
Qed.

(** C10: for a request whose method is none of OPTIONS, GET, PUT, POST and
    DELETE, the CORS wrapper returns with the response and the log
    unchanged, whatever handler it wraps (a handler that writes or panics
    would show); so do the two handlers that [CreateApiObject] registers,
    whatever the authentication function and the collection do. *)
Theorem applyCorsHeaders_ignores_other_methods {W : World}
    (r : Request) (st : HState) :
  ~ In (Method r) corsMethods ->
  (forall handler : Handler, applyCorsHeaders handler r st = Done (tt, st)) /\
  (forall (ec : EntityCollection) (mux mux' : ServeMux) (pat : string) (e : muxEntry),
      CreateApiObject ec mux = Done (tt, mux') ->
      m mux !! pat = None -> m mux' !! pat = Some e ->
      h e r st = Done (tt, st)).
Proof.
  intros Hm.
  assert (Hcors : forall handler : Handler, applyCorsHeaders handler r st = Done (tt, st)).
  { intros handler. unfold applyCorsHeaders.
    rewrite !(eqb_not_in _ _ _ Hm) by (unfold corsMethods; simpl; tauto).
    reflexivity. }
  split; [exact Hcors|].
  intros ec mux mux' pat e Hcreate Hold Hnew.
  unfold CreateApiObject, entityApiHandlerFactory in Hcreate.
  apply bind_inv in Hcreate as ([] & mux1 & H1 & H2).
  unfold Handle in H1, H2.
  destruct (String.eqb ("/" ++ GetRestName ec) ""); [discriminate|].
  destruct (m mux !! ("/" ++ GetRestName ec)); [discriminate|].
  cbv iota in H1. injection H1 as <-.
  destruct (String.eqb ("/" ++ GetRestName ec ++ "/") ""); [discriminate|].
  destruct (_ !! ("/" ++ GetRestName ec ++ "/")); [discriminate|].
  cbv iota in H2. injection H2 as <-. cbn [m] in Hnew.
  apply lookup_insert_Some in Hnew as [[_ <-]|[_ Hnew]]; [apply Hcors|].
  apply lookup_insert_Some in Hnew as [[_ <-]|[_ Hnew]]; [apply Hcors|].
  congruence.
Qed.

Lemma applyCorsHeaders_ignores_other_methods_witness :
  applyCorsHeaders (Canonical.pluralHandler)
    (Canonical.request "HEAD" "/widgets") Canonical.start
  = Done (tt, Canonical.start) /\
  applyCorsHeaders (fun _ _ => Panic "never called")
    (Canonical.request "PATCH" "/widgets") Canonical.start
  = Done (tt, Canonical.start).
Proof.
  split.
  - apply (@applyCorsHeaders_ignores_other_methods Canonical.world).
    unfold corsMethods. simpl. intros [H|[H|[H|[H|[H|[]]]]]]; discriminate H.
  - apply (@applyCorsHeaders_ignores_other_methods Canonical.world).
    unfold corsMethods. simpl. intros [H|[H|[H|[H|[H|[]]]]]]; discriminate H.
Defined.

(** ** Route resolution *)

Section Routes.

Context {W : World}.

Lemma CreateApiObject_widgets ec :
  GetRestName ec = "widgets" ->
  CreateApiObject ec emptyServeMux
  = Done (tt, twoRoutes "widgets" (pluralRoute ec) (singularRoute ec)).
Proof.
  intros Hname. unfold CreateApiObject, entityApiHandlerFactory, bind, Handle.
  rewrite Hname. reflexivity.
Qed.

(** The first hypothesis that matches a registered pattern is served. *)
Lemma RootApiHandler_first_match mux r st entityName h1 pattern1 :
  indexZ (Split (URLPath r) "/") (len (Split (URLPath r) "/") - 1) = Done entityName ->
  muxHandler mux (withPath r ("/" ++ entityName)) = (h1, pattern1) ->
  pattern1 <> "" ->
  RootApiHandler mux r st = h1 (withPath r (URLPath r)) st.
Proof.
  intros Hlast Hmux Hpat. unfold RootApiHandler, bind at 1, lift.
  rewrite Hlast, Hmux. apply String.eqb_neq in Hpat. now rewrite Hpat.
Qed.

Lemma RootApiHandler_widgets_plural (pH sH : Handler) r st :
  RootApiHandler (twoRoutes "widgets" pH sH) (withPath r "/widgets") st
  = pH (withPath r "/widgets") st.
Proof.
  unfold RootApiHandler, muxHandler, bind, lift. cbn [withPath Method URLPath].
  destruct (String.eqb (Method r) "CONNECT"); reflexivity.
Qed.

Lemma RootApiHandler_widgets_singular (pH sH : Handler) r st :
  RootApiHandler (twoRoutes "widgets" pH sH)
    (withPath r "/widgets/6ba7b810-9dad-11d1-80b4-00c04fd430c8") st
  = sH (withPath r "/widgets/6ba7b810-9dad-11d1-80b4-00c04fd430c8") st.
Proof.
  unfold RootApiHandler, muxHandler, bind, lift. cbn [withPath Method URLPath].
  destruct (String.eqb (Method r) "CONNECT"); reflexivity.
Qed.

(** For [/unknown] the second hypothesis asks the multiplexer about the path
    [//], which is not canonical: the handler it returns redirects to [/]. *)
Lemma RootApiHandler_widgets_unknown (pH sH : Handler) r st :
  String.eqb (Method r) "CONNECT" = false ->
  RootApiHandler (twoRoutes "widgets" pH sH) (withPath r "/unknown") st
  = RedirectHandler "/" StatusMovedPermanently (withPath r "/unknown") st.
Proof.
  intros Hm. unfold RootApiHandler, muxHandler, bind, lift.
  cbn [withPath Method URLPath]. rewrite Hm. reflexivity.
Qed.

End Routes.

(** C5: with the collection [widgets] registered, [/widgets] is served by
    the plural handler, whose parent map is empty, and [/widgets/<uuid>] by
    the singular handler, which reads that identifier; but [/unknown] is not
    answered with not-found: the handler left by the second hypothesis
    redirects to [/] with status 301. *)
Theorem RootApiHandler_widgets_routes {W : World}
    (ec : EntityCollection) (r : Request) (st : HState) :
  GetRestName ec = "widgets" ->
  Method r <> "CONNECT" ->
  statusCode (resp st) = None ->
  exists mux : ServeMux,
    CreateApiObject ec emptyServeMux = Done (tt, mux) /\
    (RootApiHandler mux (withPath r "/widgets") st
       = pluralRoute ec (withPath r "/widgets") st /\
     getPathComponentUuids "/widgets" = (∅, None)) /\
    (RootApiHandler mux (withPath r "/widgets/6ba7b810-9dad-11d1-80b4-00c04fd430c8") st
       = singularRoute ec (withPath r "/widgets/6ba7b810-9dad-11d1-80b4-00c04fd430c8") st /\
     indexZ (pathComponentsOf "/widgets/6ba7b810-9dad-11d1-80b4-00c04fd430c8")
            (len (pathComponentsOf "/widgets/6ba7b810-9dad-11d1-80b4-00c04fd430c8") - 1)
       = Done "6ba7b810-9dad-11d1-80b4-00c04fd430c8") /\
    (exists st',
        RootApiHandler mux (withPath r "/unknown") st = Done (tt, st') /\
        statusCode (resp st') = Some StatusMovedPermanently /\
        In ("Location", "/") (header (resp st')) /\
        NotFoundHandler (withPath r "/unknown") st <> Done (tt, st')).
Proof.
  intros Hname Hm Hfresh. apply String.eqb_neq in Hm.
  exists (twoRoutes "widgets" (pluralRoute ec) (singularRoute ec)).
  split; [now apply CreateApiObject_widgets|].
  split; [split; [apply RootApiHandler_widgets_plural|reflexivity]|].
  split; [split; [apply RootApiHandler_widgets_singular|reflexivity]|].
  rewrite (RootApiHandler_widgets_unknown _ _ _ _ Hm).
  destruct st as [[hd sc bd] lg]. simpl in Hfresh. subst sc.
  eexists. split; [reflexivity|]. split; [reflexivity|]. split.
  - simpl. apply in_or_app. right. now left.
  - discriminate.
Qed.

Lemma RootApiHandler_widgets_routes_witness :
  exists st',
    match Canonical.widgetsMux with
    | Done (_, mux) =>
        RootApiHandler mux (Canonical.request "GET" "/unknown") Canonical.start
    | Panic reason => Panic reason
    end = Done (tt, st') /\
    statusCode (resp st') = Some StatusMovedPermanently.
Proof.
  destruct (@RootApiHandler_widgets_routes Canonical.world Canonical.widgets
              (Canonical.request "GET" "/unknown") Canonical.start)
    as (mux & Hmux & _ & _ & st' & Hrun & Hstatus & _).
  - reflexivity.
  - discriminate.
  - reflexivity.
  - exists st'. unfold Canonical.widgetsMux. rewrite Hmux. now split.
Defined.

(** * Further properties *)

(** ** The parser as a function of its input *)

Lemma parsed_nil st : parsed st [] [] [] = st.
Proof.
  destruct st as [[pg ct so pf] lg]. unfold parsed. simpl.
  now rewrite !app_nil_r.
Qed.

Lemma parsed_parsed st s1 f1 l1 s2 f2 l2 :
  parsed (parsed st s1 f1 l1) s2 f2 l2
  = parsed st (s1 ++ s2)%list (f1 ++ f2)%list (l1 ++ l2)%list.
Proof. unfold parsed. simpl. rewrite <- !List.app_assoc. reflexivity. Qed.

Lemma popSortElem_parsed ss st :
  sortElemInRange ss = true ->
  popSortElem ss st
  = Done (tt, match sortOf ss with
              | Some so => parsed st [so] [] []
              | None => parsed st [] [] [sortWarning]
              end).
Proof.
  unfold sortElemInRange, popSortElem, sortOf, bind, lift, slice_to, slice_from.
  intros Hr. apply andb_true_iff in Hr as [H4 Hr]. rewrite H4.
  destruct st as [[pg ct so pf] lg].
  destruct (String.eqb (takeBytes 4 ss) "asc.") eqn:Ha.
  - unfold parsed, appendSort, modify. cbn [cf logged Page Count Sort PropFilters].
    now rewrite !app_nil_r.
  - rewrite orb_false_l in Hr. rewrite Hr.
    destruct (String.eqb (takeBytes 5 ss) "desc.");
      unfold parsed, appendSort, logPrintln, modify;
      cbn [cf logged Page Count Sort PropFilters]; now rewrite !app_nil_r.
Qed.

Lemma popSortElems_parsed elems st :
  forallb sortElemInRange elems = true ->
  forRange elems popSortElem st
  = Done (tt, parsed st (sortsOf elems) [] (sortWarnings elems)).
Proof.
  revert st. induction elems as [|ss elems IH]; intros st Hall.
  - simpl. unfold ret. now rewrite parsed_nil.
  - simpl in Hall. apply andb_true_iff in Hall as [Hss Hall].
    simpl forRange. rewrite (bind_Done _ _ _ _ _ (popSortElem_parsed ss st Hss)).
    rewrite (IH _ Hall). unfold sortsOf, sortWarnings.
    cbn [omap list_omap flat_map]. fold (sortsOf elems).
    destruct (sortOf ss); rewrite parsed_parsed; reflexivity.
Qed.

(** X1: on a sort string whose elements are long enough to be sliced,
    [popSort] returns; it appends to [Sort] the directives of the elements
    that start with [asc.] or [desc.], in the order of the elements, logs one
    warning for each other element, and leaves [Page], [Count] and
    [PropFilters] as they were. *)
Theorem popSort_stores_recognised_in_order (s : string) (st : FilterState) :
  forallb sortElemInRange (Split s ",") = true ->
  popSort s st
  = Done (tt, parsed st (sortsOf (Split s ",")) [] (sortWarnings (Split s ","))).
Proof. intros Hall. unfold popSort. now apply popSortElems_parsed. Qed.

Lemma popSort_stores_recognised_in_order_witness :
  popSort "asc.name,bogus.x,desc.age" freshFilter
  = Done (tt, {| cf := {| Page := None; Count := None;
                          Sort := [ {| SortOrder := ASC; SortFieldName := "name" |};
                                    {| SortOrder := DESC; SortFieldName := "age" |} ];
                          PropFilters := [] |};
                 logged := [sortWarning] |}).
Proof.
  exact (popSort_stores_recognised_in_order "asc.name,bogus.x,desc.age"
           freshFilter eq_refl).
Defined.

(** ** Splitting and joining *)

Lemma Split_app_byteFree (c : ascii) (a b : string) :
  byteFree c a = true ->
  Split (a ++ b) c =
  match Split b c with
  | [] => [a]
  | w :: ws => (a ++ w) :: ws
  end.
Proof.
  induction a as [|x a IH]; intros Hfree.
  - change ("" ++ b) with b. pose proof (Split_nonempty b c) as Hne.
    destruct (Split b c); [contradiction|reflexivity].
  - rewrite append_cons. simpl Split. simpl in Hfree.
    apply andb_true_iff in Hfree as [Hx Hfree].
    apply negb_true_iff in Hx. rewrite Hx, (IH Hfree).
    destruct (Split b c); reflexivity.
Qed.

Lemma Split_at_sep (c : ascii) (b : string) :
  Split (String c b) c = "" :: Split b c.
Proof. simpl. now rewrite Ascii.eqb_refl. Qed.

Lemma Split_byteFree (c : ascii) (a : string) :
  byteFree c a = true -> Split a c = [a].
Proof.
  intros Hfree.
  assert (Hsplit : Split (a ++ "") c = [a ++ ""])
    by (now rewrite (Split_app_byteFree _ _ _ Hfree)).
  now rewrite append_empty_r in Hsplit.
Qed.

(** Splitting what was joined gives the pieces back, unless there were
    none: the empty string splits into one empty piece. *)
Lemma Split_concat (c : ascii) (xs : list string) :
  xs <> [] ->
  Forall (fun x => byteFree c x = true) xs ->
  Split (String.concat (String c "") xs) c = xs.
Proof.
  intros Hne Hfree. induction Hfree as [|x xs Hx Hfree IH]; [contradiction|].
  destruct xs as [|y xs].
  - simpl. now apply Split_byteFree.
  - change (String.concat (String c "") (x :: y :: xs))
      with (x ++ String c "" ++ String.concat (String c "") (y :: xs)).
    rewrite (Split_app_byteFree _ _ _ Hx).
    change (String c "" ++ String.concat (String c "") (y :: xs))
      with (String c (String.concat (String c "") (y :: xs))).
    rewrite Split_at_sep, append_empty_r. f_equal. now apply IH.
Qed.

Lemma byteFree_app (c : ascii) (a b : string) :
  byteFree c (a ++ b) = byteFree c a && byteFree c b.
Proof.
  induction a as [|x a IH]; [reflexivity|].
  rewrite append_cons. simpl. now rewrite IH, andb_assoc.
Qed.

(** ** Sort strings read back *)

Lemma sortOf_sortElem so : sortOf (sortElem so) = Some so.
Proof. destruct so as [[|] name]; reflexivity. Qed.

Lemma sortElem_in_range so : sortElemInRange (sortElem so) = true.
Proof. destruct so as [[|] name]; reflexivity. Qed.

Lemma sortElem_comma_free so :
  byteFree "," (SortFieldName so) = true -> byteFree "," (sortElem so) = true.
Proof.
  intros Hname. unfold sortElem. rewrite byteFree_app, Hname.
  now destruct (SortOrder so).
Qed.

Lemma sortsOf_sortElems ds :
  sortsOf (map sortElem ds) = ds /\ sortWarnings (map sortElem ds) = [].
Proof.
  unfold sortsOf, sortWarnings. induction ds as [|so ds [IHs IHw]]; [now split|].
  cbn [map omap list_omap flat_map]. rewrite sortOf_sortElem.
  split; [now rewrite IHs|exact IHw].
Qed.

(** X2: reading back a sort string.  For a non-empty list of directives
    whose field names hold no comma, [popSort] on the comma-separated list of
    [asc.<name>] and [desc.<name>] appends exactly these directives, in
    order, and logs nothing. *)
Theorem popSort_reads_back_sortString (ds : list SortObj) (st : FilterState) :
  ds <> [] ->
  Forall (fun so => byteFree "," (SortFieldName so) = true) ds ->
  popSort (sortString ds) st = Done (tt, parsed st ds [] []).
Proof.
  intros Hne Hnames.
  assert (Hsplit : Split (sortString ds) "," = map sortElem ds).
  { unfold sortString. apply Split_concat.
    - destruct ds; [contradiction|discriminate].
    - apply Forall_map. eapply Forall_impl; [exact Hnames|].
      intros so Hso. now apply sortElem_comma_free. }
  unfold popSort. rewrite Hsplit, popSortElems_parsed.
  - now destruct (sortsOf_sortElems ds) as [-> ->].
  - apply forallb_forall. intros ss Hin. apply in_map_iff in Hin as (so & <- & _).
    apply sortElem_in_range.
Qed.

Lemma popSort_reads_back_sortString_witness :
  popSort (sortString [ {| SortOrder := DESC; SortFieldName := "age" |};
                        {| SortOrder := ASC; SortFieldName := "" |} ]) freshFilter
  = Done (tt, parsed freshFilter
                [ {| SortOrder := DESC; SortFieldName := "age" |};
                  {| SortOrder := ASC; SortFieldName := "" |} ] [] []).
Proof.
  apply popSort_reads_back_sortString; [discriminate|].
  repeat constructor.
Defined.

(** ** [popFilter] and [pop] as functions of the query *)

Lemma popFilterValue_parsed k v st :
  filterValueInRange v = true ->
  popFilterValue k v st
  = Done (tt, match filterOf k v with
              | Some pf => parsed st [] [pf] []
              | None => parsed st [] [] [filterWarning k]
              end).
Proof.
  unfold filterValueInRange, popFilterValue, filterOf, bind, lift, slice_to.
  intros Hr. apply andb_true_iff in Hr as [H3 Hr]. rewrite H3.
  destruct st as [[pg ct so pf] lg].
  destruct (String.eqb (takeBytes 3 v) "lt.") eqn:Ha.
  - unfold parsed, appendPropFilter, modify.
    cbn [cf logged Page Count Sort PropFilters]. now rewrite !app_nil_r.
  - rewrite orb_false_l in Hr. rewrite Hr.
    destruct (String.eqb (takeBytes 5 v) "lteq.");
      [|destruct (String.eqb (takeBytes 3 v) "eq.");
        [|destruct (String.eqb (takeBytes 3 v) "gt.");
          [|destruct (String.eqb (takeBytes 5 v) "gteq.")]]];
      unfold parsed, appendPropFilter, logPrintln, modify;
      cbn [cf logged Page Count Sort PropFilters]; now rewrite !app_nil_r.
Qed.

Lemma popFilterValues_parsed k va st :
  forallb filterValueInRange va = true ->
  forRange va (fun v => popFilterValue k v) st
  = Done (tt, parsed st [] (filtersOf [(k, va)]) (filterWarnings [(k, va)])).
Proof.
  unfold filtersOf, filterWarnings. cbn [flat_map fst snd]. rewrite !app_nil_r.
  revert st. induction va as [|v va IH]; intros st Hall.
  - simpl. unfold ret. now rewrite parsed_nil.
  - simpl in Hall. apply andb_true_iff in Hall as [Hv Hall].
    simpl forRange. rewrite (bind_Done _ _ _ _ _ (popFilterValue_parsed k v st Hv)).
    rewrite (IH _ Hall). cbn [omap list_omap flat_map].
    destruct (filterOf k v); rewrite parsed_parsed; reflexivity.
Qed.

Lemma popFilter_parsed entries st :
  Forall (fun kv => forallb filterValueInRange (snd kv) = true) entries ->
  popFilter entries st
  = Done (tt, parsed st [] (filtersOf entries) (filterWarnings entries)).
Proof.
  intros Hall. revert st. unfold popFilter.
  induction Hall as [|[k va] entries Hkv Hall IH]; intros st.
  - simpl. unfold ret. now rewrite parsed_nil.
  - simpl forRange. cbn [fst snd] in *.
    rewrite (bind_Done _ _ _ _ _ (popFilterValues_parsed k va st Hkv)).
    rewrite IH, parsed_parsed. unfold filtersOf, filterWarnings.
    cbn [flat_map fst snd]. now rewrite !app_nil_r.
Qed.

Lemma pop_page_step (o : option (list string)) st :
  firstValueOk o (fun _ => true) = true ->
  exists lg,
    match o with
    | Some pageS =>
        s <- lift (index pageS 0) ;;
        let '(page, err) := ParseInt s in
        whenErr err (logPrintln pageWarning) ;;;
        setPage page
    | None => ret tt
    end st
    = Done (tt, {| cf := {| Page := match firstValue o with
                                    | Some s => Some (fst (ParseInt s))
                                    | None => Page (cf st)
                                    end;
                            Count := Count (cf st); Sort := Sort (cf st);
                            PropFilters := PropFilters (cf st) |};
                   logged := lg |}).
Proof.
  intros Hok. destruct st as [[pg ct so pf] lg].
  destruct o as [[|s l]|]; simpl in Hok; [discriminate| |eexists; reflexivity].
  unfold bind, lift, index, firstValue. cbn [nth_error fst].
  destruct (ParseInt s) as [page [err|]]; eexists; reflexivity.
Qed.

Lemma pop_count_step (o : option (list string)) st :
  firstValueOk o (fun _ => true) = true ->
  exists lg,
    match o with
    | Some countS =>
        s <- lift (index countS 0) ;;
        let '(count, err) := ParseUint s in
        whenErr err (logPrintln countWarning) ;;;
        setCount count
    | None => ret tt
    end st
    = Done (tt, {| cf := {| Page := Page (cf st);
                            Count := match firstValue o with
                                     | Some s => Some (fst (ParseUint s))
                                     | None => Count (cf st)
                                     end;
                            Sort := Sort (cf st);
                            PropFilters := PropFilters (cf st) |};
                   logged := lg |}).
Proof.
  intros Hok. destruct st as [[pg ct so pf] lg].
  destruct o as [[|s l]|]; simpl in Hok; [discriminate| |eexists; reflexivity].
  unfold bind, lift, index, firstValue. cbn [nth_error fst].
  destruct (ParseUint s) as [count [err|]]; eexists; reflexivity.
Qed.

Lemma pop_sort_step (o : option (list string)) st :
  firstValueOk o (fun s => forallb sortElemInRange (Split s ",")) = true ->
  exists lg,
    match o with
    | Some sortS => s <- lift (index sortS 0) ;; popSort s
    | None => ret tt
    end st
    = Done (tt, {| cf := {| Page := Page (cf st); Count := Count (cf st);
                            Sort := (Sort (cf st) ++
                                     match firstValue o with
                                     | Some s => sortsOf (Split s ",")
                                     | None => []
                                     end)%list;
                            PropFilters := PropFilters (cf st) |};
                   logged := lg |}).
Proof.
  intros Hok. destruct o as [[|s l]|]; simpl in Hok; [discriminate| |].
  - unfold bind, lift, index, firstValue, popSort. cbn [nth_error].
    rewrite (popSortElems_parsed _ _ Hok). unfold parsed.
    rewrite app_nil_r. eexists. reflexivity.
  - destruct st as [[pg ct so pf] lg]. unfold firstValue. cbn [cf Page Count Sort PropFilters].
    rewrite app_nil_r. eexists. reflexivity.
Qed.

Lemma lookup_after_deletes (q : Values) :
  delete "page" q !! "count" = q !! "count" /\
  delete "count" (delete "page" q) !! "sort" = q !! "sort".
Proof.
  split.
  - now rewrite lookup_delete_ne.
  - now rewrite !lookup_delete_ne.
Qed.

Lemma legalOrder_in_range ro (q : Values) :
  legalOrder ro ->
  forallb (fun kv : string * list string => forallb filterValueInRange (snd kv))
          (map_to_list q) = true ->
  Forall (fun kv => forallb filterValueInRange (snd kv) = true) (ro q).
Proof.
  intros Hro Hall. apply Forall_forall. intros kv Hin.
  rewrite forallb_forall in Hall. apply Hall.
  apply list_elem_of_In. now rewrite <- (Hro q).
Qed.

(** The filter [pop] leaves behind, field by field. *)
Lemma pop_fields ro q st :
  legalOrder ro -> popInRange q = true ->
  exists lg,
    pop ro q st
    = Done (None, {| cf := popFilterFields q (ro (filterQueryOf q)) (cf st);
                     logged := lg |}).
Proof.
  intros Hro Hr. unfold popInRange in Hr.
  apply andb_true_iff in Hr as [Hr Hfilters].
  apply andb_true_iff in Hr as [Hr Hsort].
  apply andb_true_iff in Hr as [Hpage Hcount].
  destruct (lookup_after_deletes q) as [Hc Hs]. rewrite Hc in Hcount. rewrite Hs in Hsort.
  unfold pop. rewrite Hc, Hs.
  destruct (pop_page_step _ st Hpage) as [lg1 H1]. rewrite (bind_Done _ _ _ _ _ H1).
  edestruct (pop_count_step (q !! "count")) as [lg2 H2]; [exact Hcount|].
  rewrite (bind_Done _ _ _ _ _ H2).
  edestruct (pop_sort_step (q !! "sort")) as [lg3 H3]; [exact Hsort|].
  rewrite (bind_Done _ _ _ _ _ H3).
  rewrite (bind_Done _ _ _ _ _
             (popFilter_parsed _ _ (legalOrder_in_range _ _ Hro Hfilters))).
  unfold ret, parsed, popFilterFields, filterQueryOf.
  cbn [cf logged Page Count Sort PropFilters]. rewrite app_nil_r.
  eexists. reflexivity.
Qed.

(** X3: the filter [pop] builds, field by field.  On a request whose slice
    and index expressions stay in range, [pop] returns nil; [Page] and
    [Count] hold what [ParseInt] and [ParseUint] return for the first value
    of [page] and [count] and are untouched when the key is absent; [Sort]
    grows by the directives of the first [sort] value; [PropFilters] grows by
    the filters of the other keys, in the order the map is visited. *)
Theorem pop_result_by_field (ro : RangeOrder) (q : Values) (st : FilterState) :
  legalOrder ro -> popInRange q = true ->
  exists lg,
    pop ro q st
    = Done (None, {| cf := popFilterFields q (ro (filterQueryOf q)) (cf st);
                     logged := lg |}).
Proof. apply pop_fields. Qed.

Lemma pop_result_by_field_witness :
  exists lg,
    pop map_to_list {[ "page" := ["-3"; "7"]; "sort" := ["desc.age"];
                       "size" := ["gt.10"; "lteq.20"] ]} freshFilter
    = Done (None,
            {| cf := {| Page := Some (-3)%Z; Count := None;
                        Sort := [ {| SortOrder := DESC; SortFieldName := "age" |} ];
                        PropFilters :=
                          [ {| Comp := GT; FieldName := "size"; Value := "gt." |};
                            {| Comp := LTEQ; FieldName := "size"; Value := "lteq." |} ] |};
               logged := lg |}).
Proof.
  destruct (pop_result_by_field map_to_list
              {[ "page" := ["-3"; "7"]; "sort" := ["desc.age"];
                 "size" := ["gt.10"; "lteq.20"] ]} freshFilter)
    as [lg Hpop].
  - intros q. reflexivity.
  - vm_compute. reflexivity.
  - exists lg. rewrite Hpop. vm_compute. reflexivity.
Defined.

(** The steps of [pop] with the lines they log. *)
Lemma pop_page_log (o : option (list string)) st :
  firstValueOk o (fun _ => true) = true ->
  match o with
  | Some pageS =>
      s <- lift (index pageS 0) ;;
      let '(page, err) := ParseInt s in
      whenErr err (logPrintln pageWarning) ;;;
      setPage page
  | None => ret tt
  end st
  = Done (tt, {| cf := {| Page := match firstValue o with
                                  | Some s => Some (fst (ParseInt s))
                                  | None => Page (cf st)
                                  end;
                          Count := Count (cf st); Sort := Sort (cf st);
                          PropFilters := PropFilters (cf st) |};
                 logged := (logged st ++
                            match firstValue o with
                            | Some s => parseWarning (ParseInt s) pageWarning
                            | None => []
                            end)%list |}).
Proof.
  intros Hok. destruct st as [[pg ct so pf] lg].
  destruct o as [[|s l]|]; simpl in Hok; [discriminate| |].
  - unfold bind, lift, index, firstValue, parseWarning. cbn [nth_error fst snd].
    destruct (ParseInt s) as [page [err|]]; cbn [fst snd whenErr];
      unfold logPrintln, setPage, modify, ret;
      cbn [cf logged Page Count Sort PropFilters]; now rewrite ?app_nil_r.
  - unfold firstValue, ret. cbn [cf logged Page Count Sort PropFilters].
    now rewrite app_nil_r.
Qed.

Lemma pop_count_log (o : option (list string)) st :
  firstValueOk o (fun _ => true) = true ->
  match o with
  | Some countS =>
      s <- lift (index countS 0) ;;
      let '(count, err) := ParseUint s in
      whenErr err (logPrintln countWarning) ;;;
      setCount count
  | None => ret tt
  end st
  = Done (tt, {| cf := {| Page := Page (cf st);
                          Count := match firstValue o with
                                   | Some s => Some (fst (ParseUint s))
                                   | None => Count (cf st)
                                   end;
                          Sort := Sort (cf st);
                          PropFilters := PropFilters (cf st) |};
                 logged := (logged st ++
                            match firstValue o with
                            | Some s => parseWarning (ParseUint s) countWarning
                            | None => []
                            end)%list |}).
Proof.
  intros Hok. destruct st as [[pg ct so pf] lg].
  destruct o as [[|s l]|]; simpl in Hok; [discriminate| |].
  - unfold bind, lift, index, firstValue, parseWarning. cbn [nth_error fst snd].
    destruct (ParseUint s) as [count [err|]]; cbn [fst snd whenErr];
      unfold logPrintln, setCount, modify, ret;
      cbn [cf logged Page Count Sort PropFilters]; now rewrite ?app_nil_r.
  - unfold firstValue, ret. cbn [cf logged Page Count Sort PropFilters].
    now rewrite app_nil_r.
Qed.

Lemma pop_sort_log (o : option (list string)) st :
  firstValueOk o (fun s => forallb sortElemInRange (Split s ",")) = true ->
  match o with
  | Some sortS => s <- lift (index sortS 0) ;; popSort s
  | None => ret tt
  end st
  = Done (tt, parsed st
                match firstValue o with
                | Some s => sortsOf (Split s ",")
                | None => []
                end []
                match firstValue o with
                | Some s => sortWarnings (Split s ",")
                | None => []
                end).
Proof.
  intros Hok. destruct o as [[|s l]|]; simpl in Hok; [discriminate| |].
  - unfold bind, lift, index, firstValue, popSort. cbn [nth_error].
    now rewrite (popSortElems_parsed _ _ Hok).
  - unfold firstValue, ret. now rewrite parsed_nil.
Qed.

(** The state [pop] leaves behind: the filter field by field, and the log. *)
Lemma pop_state ro q st :
  legalOrder ro -> popInRange q = true ->
  pop ro q st
  = Done (None,
          {| cf := popFilterFields q (ro (filterQueryOf q)) (cf st);
             logged := (logged st ++ reservedWarnings q ++
                        filterWarnings (ro (filterQueryOf q)))%list |}).
Proof.
  intros Hro Hr. unfold popInRange in Hr.
  apply andb_true_iff in Hr as [Hr Hfilters].
  apply andb_true_iff in Hr as [Hr Hsort].
  apply andb_true_iff in Hr as [Hpage Hcount].
  destruct (lookup_after_deletes q) as [Hc Hs]. rewrite Hc in Hcount. rewrite Hs in Hsort.
  unfold pop. rewrite Hc, Hs.
  rewrite (bind_Done _ _ _ _ _ (pop_page_log _ st Hpage)).
  rewrite (bind_Done _ _ _ _ _ (pop_count_log _ _ Hcount)).
  rewrite (bind_Done _ _ _ _ _ (pop_sort_log _ _ Hsort)).
  rewrite (bind_Done _ _ _ _ _
             (popFilter_parsed _ _ (legalOrder_in_range _ _ Hro Hfilters))).
  unfold ret, parsed, popFilterFields, filterQueryOf, reservedWarnings.
  cbn [cf logged Page Count Sort PropFilters].
  rewrite ?app_nil_r, <- ?List.app_assoc. reflexivity.
Qed.

(** X4: the order in which Go visits the query map shows only in the order
    of the property filters and in the order of the warnings logged for
    filter values.  For two legal orders, [pop] on a request in range
    returns with the same [Page], [Count] and [Sort], and with property
    filters that are permutations of each other; both logs are the earlier
    log, then the same warnings for [page], [count] and [sort], then the
    warnings for the filter values in the order the keys were visited, the
    latter being permutations of each other. *)
Theorem pop_order_only_permutes_filters (ro1 ro2 : RangeOrder) (q : Values)
    (st : FilterState) :
  legalOrder ro1 -> legalOrder ro2 -> popInRange q = true ->
  exists st1 st2,
    pop ro1 q st = Done (None, st1) /\ pop ro2 q st = Done (None, st2) /\
    Page (cf st1) = Page (cf st2) /\ Count (cf st1) = Count (cf st2) /\
    Sort (cf st1) = Sort (cf st2) /\
    PropFilters (cf st1) ≡ₚ PropFilters (cf st2) /\
    logged st1 = (logged st ++ reservedWarnings q ++
                  filterWarnings (ro1 (filterQueryOf q)))%list /\
    logged st2 = (logged st ++ reservedWarnings q ++
                  filterWarnings (ro2 (filterQueryOf q)))%list /\
    filterWarnings (ro1 (filterQueryOf q))
      ≡ₚ filterWarnings (ro2 (filterQueryOf q)) /\
    logged st1 ≡ₚ logged st2.
Proof.
  intros H1 H2 Hr.
  assert (Hw : filterWarnings (ro1 (filterQueryOf q))
                 ≡ₚ filterWarnings (ro2 (filterQueryOf q))).
  { unfold filterWarnings. apply Permutation_flat_map. now rewrite (H1 _), (H2 _). }
  eexists. eexists.
  split; [exact (pop_state ro1 q st H1 Hr)|].
  split; [exact (pop_state ro2 q st H2 Hr)|].
  cbn [cf logged popFilterFields Page Count Sort PropFilters].
  repeat split.
  - apply Permutation_app_head. unfold filtersOf.
    apply Permutation_flat_map. now rewrite (H1 _), (H2 _).
  - exact Hw.
  - now rewrite Hw.
Qed.

(** Two orders that visit the keys [a], [b], [c] in opposite directions:
    the filters and the warnings come out in different orders, and nothing
    else differs. *)
Lemma pop_order_only_permutes_filters_witness :
  exists st1 st2,
    pop map_to_list
        {[ "page" := ["x"]; "a" := ["eq.one"; "bogus"]; "b" := ["other"];
           "c" := ["gt.10"] ]} freshFilter = Done (None, st1) /\
    pop (fun q => rev (map_to_list q))
        {[ "page" := ["x"]; "a" := ["eq.one"; "bogus"]; "b" := ["other"];
           "c" := ["gt.10"] ]} freshFilter = Done (None, st2) /\
    Page (cf st1) = Page (cf st2) /\ Count (cf st1) = Count (cf st2) /\
    Sort (cf st1) = Sort (cf st2) /\
    PropFilters (cf st1) ≡ₚ PropFilters (cf st2) /\
    logged st1 ≡ₚ logged st2 /\
    PropFilters (cf st1) <> PropFilters (cf st2) /\
    logged st1 <> logged st2.
Proof.
  destruct (pop_order_only_permutes_filters
              map_to_list (fun q => rev (map_to_list q))
              {[ "page" := ["x"]; "a" := ["eq.one"; "bogus"]; "b" := ["other"];
                 "c" := ["gt.10"] ]} freshFilter)
    as (st1 & st2 & Hp1 & Hp2 & Hpage & Hcount & Hsort & Hpf & Hl1 & Hl2 & _ & Hlog).
  - intros q. reflexivity.
  - intros q. symmetry. apply Permutation_rev.
  - vm_compute. reflexivity.
  - exists st1, st2. repeat split; try assumption.
    + vm_compute in Hp1. vm_compute in Hp2.
      injection Hp1 as <-. injection Hp2 as <-. discriminate.
    + vm_compute in Hp1. vm_compute in Hp2.
      injection Hp1 as <-. injection Hp2 as <-. discriminate.
Defined.

Lemma filterOf_FieldName k v pf : filterOf k v = Some pf -> FieldName pf = k.
Proof.
  unfold filterOf. intros Hf.
  repeat match type of Hf with
         | (if ?b then _ else _) = _ => destruct b
         end; try discriminate; now injection Hf as <-.
Qed.

Lemma filtersOf_FieldName entries pf :
  In pf (filtersOf entries) ->
  exists va, In (FieldName pf, va) entries.
Proof.
  unfold filtersOf. intros Hin. apply in_flat_map in Hin as ([k va] & Hkv & Hpf).
  cbn [fst snd] in Hpf. apply list_elem_of_In, list_elem_of_omap in Hpf as (v & _ & Hf).
  apply filterOf_FieldName in Hf. subst k. now exists va.
Qed.

(** X5: [page], [count] and [sort] never become property filters.  Every
    property filter that [pop] adds carries the name of a key of the query
    other than these three. *)
Theorem pop_filters_only_other_keys (ro : RangeOrder) (q : Values)
    (st : FilterState) :
  legalOrder ro -> popInRange q = true ->
  exists st' added,
    pop ro q st = Done (None, st') /\
    PropFilters (cf st') = (PropFilters (cf st) ++ added)%list /\
    Forall (fun pf => FieldName pf <> "page" /\ FieldName pf <> "count" /\
                      FieldName pf <> "sort" /\
                      is_Some (q !! FieldName pf)) added.
Proof.
  intros Hro Hr. destruct (pop_fields ro q st Hro Hr) as [lg Hpop].
  eexists. exists (filtersOf (ro (filterQueryOf q))).
  split; [exact Hpop|]. split; [reflexivity|].
  apply Forall_forall. intros pf Hin.
  apply list_elem_of_In, filtersOf_FieldName in Hin as [va Hva].
  apply list_elem_of_In in Hva. rewrite (Hro _) in Hva.
  apply elem_of_map_to_list in Hva. unfold filterQueryOf in Hva.
  apply lookup_delete_Some in Hva as [Hsort Hva].
  apply lookup_delete_Some in Hva as [Hcount Hva].
  apply lookup_delete_Some in Hva as [Hpage Hva].
  repeat split; try congruence. now exists va.
Qed.

Lemma pop_filters_only_other_keys_witness :
  exists st' added,
    pop map_to_list specQuery freshFilter = Done (None, st') /\
    PropFilters (cf st') = (PropFilters (cf freshFilter) ++ added)%list /\
    Forall (fun pf => FieldName pf <> "page" /\ FieldName pf <> "count" /\
                      FieldName pf <> "sort" /\
                      is_Some (specQuery !! FieldName pf)) added.
Proof.
  apply pop_filters_only_other_keys.
  - intros q. reflexivity.
  - vm_compute. reflexivity.
Defined.

(** X6: of the values under [page], [count] and [sort], [pop] reads the
    first one only: changing the values after the first changes nothing,
    neither the filter nor the log nor whether [pop] panics. *)
Theorem pop_reads_first_value_only (ro : RangeOrder) (q : Values)
    (s : string) (rest rest' : list string) (st : FilterState) :
  pop ro (<["page" := s :: rest]> q) st = pop ro (<["page" := s :: rest']> q) st /\
  pop ro (<["count" := s :: rest]> q) st = pop ro (<["count" := s :: rest']> q) st /\
  pop ro (<["sort" := s :: rest]> q) st = pop ro (<["sort" := s :: rest']> q) st.
Proof.
  unfold pop. repeat split.
  - rewrite !lookup_insert_eq, !delete_insert_eq. reflexivity.
  - rewrite !(lookup_insert_ne _ "count" "page") by discriminate.
    rewrite !(delete_insert_ne _ "page" "count") by discriminate.
    rewrite !lookup_insert_eq, !delete_insert_eq. reflexivity.
  - rewrite !(lookup_insert_ne _ "sort" "page") by discriminate.
    rewrite !(delete_insert_ne _ "page" "sort") by discriminate.
    rewrite !(lookup_insert_ne _ "sort" "count") by discriminate.
    rewrite !(delete_insert_ne _ "count" "sort") by discriminate.
    rewrite !lookup_insert_eq, !delete_insert_eq. reflexivity.
Qed.

(** ** The parent map, name by name *)

(** X7: in the map of a valid path a name stands for the identifier of its
    last pair, and a name that is in no pair is not in the map (the terminal
    name in particular, unless it is also the name of a pair). *)
Theorem getPathComponentUuids_lookup {W : World} (path : string)
    (pairs : list (string * string)) (terminal : string) :
  pathComponentsOf path = (flattenPairs pairs ++ [terminal])%list ->
  Forall (fun p => snd (FromString (snd p)) = None) pairs ->
  (forall before name ident after,
      pairs = (before ++ (name, ident) :: after)%list ->
      name ∉ after.*1 ->
      fst (getPathComponentUuids path) !! name = Some (fst (FromString ident))) /\
  (forall name, name ∉ pairs.*1 -> fst (getPathComponentUuids path) !! name = None).
Proof.
  intros Hpcs Hok. rewrite (getPathComponentUuids_valid _ _ _ Hpcs Hok). simpl. split.
  - intros before name ident after -> Hlast.
    rewrite parsedPairs_app.
    change (parsedPairs ((name, ident) :: after))
      with ((name, fst (FromString ident)) :: parsedPairs after).
    apply insertAll_lookup_last. now rewrite parsedPairs_names.
  - intros name Hname. rewrite insertAll_lookup_notin by (now rewrite parsedPairs_names).
    apply lookup_empty.
Qed.

Lemma getPathComponentUuids_lookup_witness :
  fst (@getPathComponentUuids Canonical.world
         "/a/00000000-0000-0000-0000-000000000001/a/00000000-0000-0000-0000-000000000002/b")
    !! "a" = Some 2%N /\
  fst (@getPathComponentUuids Canonical.world
         "/a/00000000-0000-0000-0000-000000000001/a/00000000-0000-0000-0000-000000000002/b")
    !! "b" = None.
Proof.
  destruct (@getPathComponentUuids_lookup Canonical.world
              "/a/00000000-0000-0000-0000-000000000001/a/00000000-0000-0000-0000-000000000002/b"
              [("a", "00000000-0000-0000-0000-000000000001");
               ("a", "00000000-0000-0000-0000-000000000002")] "b")
    as [Hlast Hnone].
  - reflexivity.
  - repeat constructor.
  - split.
    + apply (Hlast [("a", "00000000-0000-0000-0000-000000000001")] "a"
               "00000000-0000-0000-0000-000000000002" []); [reflexivity|].
      apply not_elem_of_nil.
    + apply Hnone. simpl. intros Hin.
      apply elem_of_cons in Hin as [Hin|Hin]; [discriminate|].
      apply elem_of_cons in Hin as [Hin|Hin]; [discriminate|].
      now apply not_elem_of_nil in Hin.
Defined.

(** ** Paths with and without a slash *)

Lemma Split_app_sep (c : ascii) (a b : string) :
  Split (a ++ String c b) c = (Split a c ++ Split b c)%list.
Proof.
  induction a as [|x a IH].
  - change ("" ++ String c b) with (String c b). now rewrite Split_at_sep.
  - rewrite append_cons. simpl Split. rewrite IH.
    destruct (Ascii.eqb x c); [reflexivity|].
    pose proof (Split_nonempty a c) as Hne.
    destruct (Split a c); [contradiction|reflexivity].
Qed.

Lemma pathComponentsOf_slashFree path :
  slashFree path = true -> pathComponentsOf path = [].
Proof.
  intros Hfree. unfold pathComponentsOf. now rewrite (Split_slashFree _ Hfree).
Qed.

Lemma Split_two_of_slash path :
  slashFree path = false -> exists a b rest, Split path "/" = a :: b :: rest.
Proof.
  induction path as [|x path IH]; [discriminate|]. simpl. intros Hfree.
  destruct (Ascii.eqb x "/") eqn:Hx.
  - pose proof (Split_nonempty path "/") as Hne.
    destruct (Split path "/") as [|b rest]; [contradiction|]. now exists "", b, rest.
  - simpl in Hfree. destruct (IH Hfree) as (a & b & rest & ->).
    now exists (String x a), b, rest.
Qed.

Lemma indexZ_last {A} (l : list A) (x : A) :
  indexZ (l ++ [x])%list (len (l ++ [x])%list - 1) = Done x.
Proof.
  unfold indexZ, len, index. rewrite length_app. simpl length.
  replace (Z.of_nat (length l + 1) - 1)%Z with (Z.of_nat (length l)) by lia.
  destruct (Z.of_nat (length l) <? 0)%Z eqn:Hneg; [apply Z.ltb_lt in Hneg; lia|].
  rewrite Nat2Z.id, nth_error_app2 by lia. now rewrite Nat.sub_diag.
Qed.

Lemma indexZ_nil {A} (i : Z) : exists reason, indexZ (@nil A) i = Panic reason.
Proof.
  unfold indexZ, index. destruct (i <? 0)%Z; [eauto|].
  destruct (Z.to_nat i); simpl; eauto.
Qed.

Lemma nonempty_snoc {A} (x : A) (l : list A) : exists l' y, x :: l = (l' ++ [y])%list.
Proof.
  revert x. induction l as [|z l IH]; intros x.
  - now exists [], x.
  - destruct (IH z) as (l' & y & ->). now exists (x :: l'), y.
Qed.

(** ** When the handlers panic *)

Section HandlerPanics.

Context {W : World}.

Lemma httpError_returns msg code st :
  exists st', httpError msg code st = Done (tt, st').
Proof. eexists. reflexivity. Qed.

Lemma logged_httpError_returns line msg code st :
  exists st', (logLine line ;;; httpError msg code) st = Done (tt, st').
Proof. eexists. reflexivity. Qed.

Lemma singular_after_last_returns ec r last st :
  exists st',
    (let '(entityUuid, err) := FromString last in
     match err with
     | Some e =>
         logLine ("error parsing UUID (" ++ last ++ "): " ++ Error e) ;;;
         httpError "error parsing  UUID" StatusBadRequest
     | None =>
         if String.eqb (Method r) "PUT" then
           let '(b, err) := Body r in
           match err with
           | Some e =>
               logLine ("error parsing request body: " ++ Error e) ;;;
               httpError "error parsing request body" StatusInternalServerError
           | None =>
               match EditEntity ec entityUuid b with
               | Some e =>
                   logLine ("error editing entity: " ++ Error e) ;;;
                   httpError "error editing entity" StatusInternalServerError
               | None => ret tt
               end
           end
         else if String.eqb (Method r) "DELETE" then
           match DelEntity ec entityUuid with
           | Some e =>
               logLine ("error deleting entity: " ++ Error e) ;;;
               httpError "error deleting entity" StatusInternalServerError
           | None => ret tt
           end
         else if String.eqb (Method r) "GET" then
           let '(entity, err) := GetEntity ec entityUuid in
           match err with
           | Some e =>
               logLine ("error getting entity: " ++ Error e) ;;;
               httpError "could not find entity to GET" StatusBadRequest
           | None =>
               let '(entityJson, err) := jsonMarshalEntity entity in
               match err with
               | Some e =>
                   logLine ("error encoding JSON entity (" ++ sprintEntity entity
                            ++ "): " ++ Error e) ;;;
                   httpError "error encoding JSON" StatusInternalServerError
               | None => Fprint entityJson
               end
           end
         else ret tt
     end) st = Done (tt, st').
Proof.
  destruct (FromString last) as [u [e|]]; [eexists; reflexivity|].
  destruct (String.eqb (Method r) "PUT").
  { destruct (Body r) as [b [e|]]; [eexists; reflexivity|].
    destruct (EditEntity ec u b); eexists; reflexivity. }
  destruct (String.eqb (Method r) "DELETE").
  { destruct (DelEntity ec u); eexists; reflexivity. }
  destruct (String.eqb (Method r) "GET"); [|eexists; reflexivity].
  destruct (GetEntity ec u) as [entity [e|]]; [eexists; reflexivity|].
  destruct (jsonMarshalEntity entity) as [js [e|]]; eexists; reflexivity.
Qed.

End HandlerPanics.

(** X8: the singular handler panics exactly on a path without a slash, where
    [strings.Split(path, "/")[1:]] is empty and its last element is asked
    for; on every path with a slash it returns, whatever the method, the
    identifier and the collection answer. *)
Theorem getSingularHandler_panics_iff_no_slash {W : World}
    (ec : EntityCollection) (r : Request) (st : HState) :
  panics (getSingularHandler ec r st) = slashFree (URLPath r).
Proof.
  unfold getSingularHandler. unfold bind at 1. unfold lift.
  destruct (slashFree (URLPath r)) eqn:Hfree.
  - rewrite (pathComponentsOf_slashFree _ Hfree).
    destruct (@indexZ_nil string (len (@nil string) - 1)) as [reason ->]. reflexivity.
  - destruct (Split_two_of_slash _ Hfree) as (a & b & rest & Hsplit).
    unfold pathComponentsOf. rewrite Hsplit. cbn [tail].
    destruct (nonempty_snoc b rest) as (l' & last & ->).
    rewrite indexZ_last.
    destruct (singular_after_last_returns ec r last st) as [st' ->]. reflexivity.
Qed.

Lemma last_segment_of_path (a ident : string) :
  slashFree ident = true ->
  indexZ (pathComponentsOf (a ++ "/" ++ ident))
         (len (pathComponentsOf (a ++ "/" ++ ident)) - 1) = Done ident.
Proof.
  intros Hfree. unfold pathComponentsOf.
  change ("/" ++ ident) with (String "/" ident).
  rewrite Split_app_sep, (Split_slashFree _ Hfree).
  pose proof (Split_nonempty a "/") as Hne.
  destruct (Split a "/") as [|x xs]; [contradiction|].
  cbn [app tail]. apply indexZ_last.
Qed.

(** X9: the singular handler reads the last path segment only.  Two requests
    that differ in what comes before the last slash are answered alike: the
    parent names and identifiers of a singular path are neither parsed nor
    checked. *)
Theorem getSingularHandler_reads_last_segment_only {W : World}
    (ec : EntityCollection) (r : Request) (a1 a2 ident : string) (st : HState) :
  slashFree ident = true ->
  getSingularHandler ec (withPath r (a1 ++ "/" ++ ident)) st
  = getSingularHandler ec (withPath r (a2 ++ "/" ++ ident)) st.
Proof.
  intros Hfree. unfold getSingularHandler. cbn [withPath URLPath Method Body].
  unfold bind at 1 3. unfold lift.
  now rewrite !(last_segment_of_path _ _ Hfree).
Qed.

Lemma getSingularHandler_reads_last_segment_only_witness :
  getSingularHandler Canonical.widgets
    (Canonical.request "GET" "/widgets/6ba7b810-9dad-11d1-80b4-00c04fd430c8")
    Canonical.start
  = getSingularHandler Canonical.widgets
      (Canonical.request "GET" "/owners/not-a-uuid/x/y/6ba7b810-9dad-11d1-80b4-00c04fd430c8")
      Canonical.start.
Proof.
  exact (@getSingularHandler_reads_last_segment_only Canonical.world
           Canonical.widgets (Canonical.request "GET" "") "/widgets"
           "/owners/not-a-uuid/x/y" "6ba7b810-9dad-11d1-80b4-00c04fd430c8"
           Canonical.start eq_refl).
Defined.

Section PluralPanics.

Context {W : World}.

Lemma collectionResponse_returns ec parents filter st :
  exists st', collectionResponse ec parents filter st = Done (tt, st').
Proof.
  unfold collectionResponse.
  destruct (GetCollection ec parents filter) as [c [e|]]; [eexists; reflexivity|].
  destruct (jsonMarshalCollection c) as [js [e|]]; eexists; reflexivity.
Qed.

Lemma pluralPost_returns ec r parents st :
  exists st', pluralPost ec r parents st = Done (tt, st').
Proof.
  unfold pluralPost. destruct (Body r) as [b [e|]]; [eexists; reflexivity|].
  destruct (CreateEntity ec _ parents b) as [p [e|]]; eexists; reflexivity.
Qed.

Lemma pathErrorResponse_returns e st :
  exists st', pathErrorResponse e st = Done (tt, st').
Proof. destruct e; eexists; reflexivity. Qed.

Lemma pluralGet_panics ec r parents st :
  panics (pluralGet ec r parents st)
  = panics (pop rangeOrder (Query r) {| cf := zeroCollFilter; logged := hlog st |}).
Proof.
  rewrite pluralGet_skips_filterErrorBranch. unfold bind, runPop.
  destruct (pop rangeOrder (Query r) _) as [[err fs]|reason]; [|reflexivity].
  destruct (collectionResponse_returns ec parents (cf fs)
              {| resp := resp st; hlog := logged fs |}) as [st' Hc].
  cbn [snd]. now rewrite Hc.
Qed.

End PluralPanics.

(** X10: the plural handler panics in one case only: a GET on a path that
    parses, with a query on which [pop] panics.  On a malformed path, on
    POST and on every other method it returns, whatever the body and the
    collection answer. *)
Theorem getPluralHandler_panics_iff_pop_panics {W : World}
    (ec : EntityCollection) (r : Request) (st : HState) :
  panics (getPluralHandler ec r st)
  = match snd (getPathComponentUuids (URLPath r)) with
    | Some _ => false
    | None =>
        String.eqb (Method r) "GET" &&
        panics (pop rangeOrder (Query r)
                    {| cf := zeroCollFilter; logged := hlog st |})
    end.
Proof.
  unfold getPluralHandler.
  destruct (getPathComponentUuids (URLPath r)) as [parents [e|]]; cbn [snd].
  - now destruct (pathErrorResponse_returns e st) as [st' ->].
  - destruct (String.eqb (Method r) "GET"); [apply pluralGet_panics|].
    destruct (String.eqb (Method r) "POST"); [|reflexivity].
    now destruct (pluralPost_returns ec r parents st) as [st' ->].
Qed.

(** ** Requests that never reach the collection *)

Section Running.

Context {W : World}.

(** The primitives on a response written out field by field. *)
Lemma headerAdd_run k v hd sc bd lg :
  headerAdd k v {| resp := {| header := hd; statusCode := sc; body := bd |};
                   hlog := lg |}
  = Done (tt, {| resp := {| header := (hd ++ [(k, v)])%list;
                            statusCode := sc; body := bd |};
                 hlog := lg |}).
Proof. reflexivity. Qed.

Lemma headerSet_run k v hd sc bd lg :
  headerSet k v {| resp := {| header := hd; statusCode := sc; body := bd |};
                   hlog := lg |}
  = Done (tt, {| resp := {| header :=
                              (filter (fun kv => negb (String.eqb (fst kv) k)) hd
                               ++ [(k, v)])%list;
                            statusCode := sc; body := bd |};
                 hlog := lg |}).
Proof. reflexivity. Qed.

Lemma WriteHeader_run code hd bd lg :
  WriteHeader code {| resp := {| header := hd; statusCode := None; body := bd |};
                      hlog := lg |}
  = Done (tt, {| resp := {| header := hd; statusCode := Some code; body := bd |};
                 hlog := lg |}).
Proof. reflexivity. Qed.

Lemma logLine_run line w lg :
  logLine line {| resp := w; hlog := lg |}
  = Done (tt, {| resp := w; hlog := (lg ++ [line])%list |}).
Proof. reflexivity. Qed.

(** [http.Error] on a response whose status is not written yet. *)
Lemma httpError_run msg code hd bd lg :
  httpError msg code {| resp := {| header := hd; statusCode := None; body := bd |};
                        hlog := lg |}
  = Done (tt,
          {| resp :=
               {| header :=
                    (filter (fun kv => negb (String.eqb (fst kv) "X-Content-Type-Options"))
                       (filter (fun kv => negb (String.eqb (fst kv) "Content-Type")) hd
                        ++ [("Content-Type", "text/plain; charset=utf-8")])
                     ++ [("X-Content-Type-Options", "nosniff")])%list;
                  statusCode := Some code;
                  body := bd ++ msg ++ newline |};
             hlog := lg |}).
Proof. reflexivity. Qed.

End Running.

Lemma forwarded_method_tests {W : World} (r : Request) :
  In (Method r) forwardedMethods ->
  String.eqb (Method r) "OPTIONS" = false /\
  (String.eqb (Method r) "GET" || String.eqb (Method r) "PUT"
   || String.eqb (Method r) "POST" || String.eqb (Method r) "DELETE") = true.
Proof.
  unfold forwardedMethods. simpl.
  intros [<-|[<-|[<-|[<-|[]]]]]; split; reflexivity.
Qed.

(** A pair whose key passes the filter stays in a filtered header list. *)
Lemma in_filter_other_key (k k' v : string) (hd : list (string * string)) :
  String.eqb k k' = false ->
  In (k, v) hd ->
  In (k, v) (filter (fun kv => negb (String.eqb (fst kv) k')) hd).
Proof.
  intros Hne Hin. apply list_elem_of_In, list_elem_of_filter. split.
  - simpl. now rewrite Hne.
  - now apply list_elem_of_In.
Qed.

(** X11: a request with a forwarded method that carries no credentials is
    answered with status 401 and a [WWW-Authenticate] header, and one whose
    credentials the authentication function rejects with status 403; in both
    cases the answer is the same whatever handler is wrapped, so neither the
    handler nor the collection is reached. *)
Theorem routes_reject_before_handler {W : World} (r : Request) (st : HState) :
  In (Method r) forwardedMethods ->
  statusCode (resp st) = None ->
  (BasicAuth r = None ->
   exists st',
     (forall handler : Handler,
         applyCorsHeaders (applySecurity handler) r st = Done (tt, st')) /\
     statusCode (resp st') = Some StatusUnauthorized /\
     In ("WWW-Authenticate", "Basic realm=" ++ dquote ++ "a" ++ dquote)
        (header (resp st'))) /\
  (forall uname pword auth e,
      BasicAuth r = Some (uname, pword) ->
      getRequestor = Some auth ->
      snd (auth uname pword) = Some e ->
      exists st',
        (forall handler : Handler,
            applyCorsHeaders (applySecurity handler) r st = Done (tt, st')) /\
        statusCode (resp st') = Some StatusForbidden).
Proof.
  intros Hm Hfresh. destruct (forwarded_method_tests r Hm) as [Hopt Hfwd].
  destruct st as [[hd sc bd] lg]. simpl in Hfresh. subst sc.
  unfold applyCorsHeaders, applySecurity. rewrite Hopt, Hfwd. split.
  - intros Hauth. rewrite Hauth.
    rewrite (bind_Done _ _ _ _ _ (headerAdd_run _ _ _ _ _ _)).
    rewrite (bind_Done _ _ _ _ _ (headerAdd_run _ _ _ _ _ _)).
    rewrite (bind_Done _ _ _ _ _ (headerAdd_run _ _ _ _ _ _)).
    rewrite (bind_Done _ _ _ _ _ (headerAdd_run _ _ _ _ _ _)).
    rewrite httpError_run.
    eexists. split; [intros handler; reflexivity|].
    cbn [resp statusCode header]. split; [reflexivity|].
    apply in_or_app. left. apply in_filter_other_key; [reflexivity|].
    apply in_or_app. left. apply in_filter_other_key; [reflexivity|].
    apply in_or_app. right. now left.
  - intros uname pword auth e Hauth Hreq Hrej. rewrite Hauth, Hreq.
    destruct (auth uname pword) as [requestor err]. simpl in Hrej. subst err.
    rewrite (bind_Done _ _ _ _ _ (headerAdd_run _ _ _ _ _ _)).
    rewrite (bind_Done _ _ _ _ _ (headerAdd_run _ _ _ _ _ _)).
    rewrite httpError_run.
    eexists. split; [intros handler; reflexivity|reflexivity].
Qed.

Lemma routes_reject_before_handler_witness :
  exists st',
    (forall handler : @Handler Canonical.world,
        applyCorsHeaders (applySecurity handler)
          (@mkRequest Canonical.world "DELETE" "/widgets/x" ∅ None ("", None) None)
          Canonical.start = Done (tt, st')) /\
    statusCode (resp st') = Some StatusUnauthorized /\
    In ("WWW-Authenticate", "Basic realm=" ++ dquote ++ "a" ++ dquote)
       (header (resp st')).
Proof.
  apply (@routes_reject_before_handler Canonical.world
           (@mkRequest Canonical.world "DELETE" "/widgets/x" ∅ None ("", None) None)
           Canonical.start).
  - unfold forwardedMethods. simpl. tauto.
  - reflexivity.
  - reflexivity.
Defined.

(** ** Registration *)

Lemma length_append (a b : string) :
  String.length (a ++ b) = (String.length a + String.length b)%nat.
Proof.
  induction a as [|x a IH]; [reflexivity|].
  rewrite append_cons. simpl. now rewrite IH.
Qed.

Lemma append_slash_neq (s : string) : s <> s ++ "/".
Proof.
  intros Heq. apply (f_equal String.length) in Heq.
  rewrite length_append in Heq. simpl in Heq. lia.
Qed.

Section Registration.

Context {W : World}.

Lemma patterns_differ ec : ("/" ++ GetRestName ec) <> ("/" ++ GetRestName ec ++ "/").
Proof.
  intros Heq.
  apply (append_slash_neq (String "/" (GetRestName ec))). exact Heq.
Qed.

(** What [CreateApiObject] does to the multiplexer when it returns. *)
Lemma CreateApiObject_inv ec mux mux' :
  CreateApiObject ec mux = Done (tt, mux') ->
  m mux !! ("/" ++ GetRestName ec) = None /\
  m mux !! ("/" ++ GetRestName ec ++ "/") = None /\
  m mux' = <[("/" ++ GetRestName ec ++ "/") :=
               {| h := singularRoute ec; pattern := ("/" ++ GetRestName ec ++ "/") |}]>
             (<[("/" ++ GetRestName ec) :=
                  {| h := pluralRoute ec; pattern := ("/" ++ GetRestName ec) |}]> (m mux)).
Proof.
  unfold CreateApiObject, entityApiHandlerFactory.
  intros Hcreate. apply bind_inv in Hcreate as ([] & mux1 & H1 & H2).
  unfold Handle in H1, H2.
  destruct (String.eqb ("/" ++ GetRestName ec) ""); [discriminate|].
  destruct (m mux !! ("/" ++ GetRestName ec)) eqn:Hp; [discriminate|].
  cbv iota in H1. injection H1 as <-.
  destruct (String.eqb ("/" ++ GetRestName ec ++ "/") ""); [discriminate|].
  cbn [m] in H2.
  destruct (_ !! ("/" ++ GetRestName ec ++ "/")) eqn:Hs; [discriminate|].
  cbv iota in H2. injection H2 as <-. cbn [m].
  split; [reflexivity|]. split; [|reflexivity].
  rewrite lookup_insert_ne in Hs; [exact Hs|]. apply (patterns_differ ec).
Qed.

Lemma slash_pattern_nonempty (x : string) : String.eqb ("/" ++ x) "" = false.
Proof. reflexivity. Qed.

Lemma CreateApiObject_returns ec mux :
  m mux !! ("/" ++ GetRestName ec) = None ->
  m mux !! ("/" ++ GetRestName ec ++ "/") = None ->
  exists mux', CreateApiObject ec mux = Done (tt, mux').
Proof.
  unfold CreateApiObject, entityApiHandlerFactory.
  intros Hp Hs. unfold bind, Handle.
  rewrite !slash_pattern_nonempty, Hp. cbn [m].
  rewrite lookup_insert_ne by (apply (patterns_differ ec)).
  rewrite Hs. eexists. reflexivity.
Qed.

Lemma CreateApiObject_registers ec mux mux' :
  CreateApiObject ec mux = Done (tt, mux') -> registered mux' ec.
Proof.
  intros Hcreate. apply CreateApiObject_inv in Hcreate as (_ & _ & Hm).
  unfold registered. rewrite Hm. split.
  - rewrite lookup_insert_ne by (intros Heq; now apply (patterns_differ ec)).
    apply lookup_insert_eq.
  - apply lookup_insert_eq.
Qed.

Lemma CreateApiObject_keeps ec0 ec mux mux' :
  registered mux ec0 ->
  CreateApiObject ec mux = Done (tt, mux') -> registered mux' ec0.
Proof.
  intros [Hp0 Hs0] Hcreate.
  apply CreateApiObject_inv in Hcreate as (Hp & Hs & Hm).
  unfold registered. rewrite Hm. split.
  - rewrite !lookup_insert_ne; [exact Hp0| |]; intros Heq; congruence.
  - rewrite !lookup_insert_ne; [exact Hs0| |]; intros Heq; congruence.
Qed.

End Registration.

(** X12: [CreateApiObject] returns exactly when neither [/name] nor
    [/name/] is registered yet.  When it returns, both routes of the
    collection are registered and every collection registered before still
    is; registering a second collection under the same name panics. *)
Theorem CreateApiObject_registration {W : World}
    (ec : EntityCollection) (mux : ServeMux) :
  ((exists mux', CreateApiObject ec mux = Done (tt, mux')) <->
   m mux !! ("/" ++ GetRestName ec) = None /\
   m mux !! ("/" ++ GetRestName ec ++ "/") = None) /\
  (forall mux',
      CreateApiObject ec mux = Done (tt, mux') ->
      registered mux' ec /\
      (forall ec0, registered mux ec0 -> registered mux' ec0) /\
      (forall ec2, GetRestName ec2 = GetRestName ec ->
                   panics (CreateApiObject ec2 mux') = true)).
Proof.
  split.
  - split.
    + intros [mux' Hcreate]. apply CreateApiObject_inv in Hcreate. tauto.
    + intros [Hp Hs]. now apply CreateApiObject_returns.
  - intros mux' Hcreate. split; [now apply CreateApiObject_registers with mux|].
    split; [intros ec0 H0; now apply CreateApiObject_keeps with ec mux|].
    intros ec2 Hname.
    destruct (CreateApiObject ec2 mux') as [[[] mux'']|reason] eqn:H2; [|reflexivity].
    apply CreateApiObject_inv in H2 as (Hp2 & _).
    apply CreateApiObject_registers in Hcreate as [Hp _].
    rewrite Hname in Hp2. congruence.
Qed.

Lemma CreateApiObject_registration_witness :
  exists mux',
    CreateApiObject Canonical.widgets emptyServeMux = Done (tt, mux') /\
    registered mux' Canonical.widgets /\
    panics (CreateApiObject Canonical.widgets mux') = true.
Proof.
  destruct (@CreateApiObject_registration Canonical.world Canonical.widgets
              emptyServeMux) as [[_ Hreturns] Hafter].
  destruct Hreturns as [mux' Hcreate]; [split; reflexivity|].
  exists mux'. split; [exact Hcreate|].
  destruct (Hafter mux' Hcreate) as (Hreg & _ & Htwice).
  split; [exact Hreg|]. now apply Htwice.
Defined.

(** X13: an OPTIONS request is answered by the CORS wrapper alone: it adds
    the three [Access-Control-Allow-*] headers and touches neither the
    status nor the body nor the log, whatever handler it wraps and whatever
    credentials the request carries; so do both routes that
    [CreateApiObject] registers. *)
Theorem options_answered_by_cors_alone {W : World} (r : Request) (st : HState) :
  Method r = "OPTIONS" ->
  let answer :=
    {| resp := {| header := (header (resp st) ++
                    [("Access-Control-Allow-Origin", "http://localhost:8090");
                     ("Access-Control-Allow-Headers", "Authorization");
                     ("Access-Control-Allow-Methods", "GET, PUT, POST, DELETE")])%list;
                  statusCode := statusCode (resp st);
                  body := body (resp st) |};
       hlog := hlog st |} in
  (forall handler : Handler, applyCorsHeaders handler r st = Done (tt, answer)) /\
  (forall (ec : EntityCollection) (mux mux' : ServeMux) (pat : string) (e : muxEntry),
      CreateApiObject ec mux = Done (tt, mux') ->
      m mux !! pat = None -> m mux' !! pat = Some e ->
      h e r st = Done (tt, answer)).
Proof.
  intros Hm answer.
  assert (Hcors : forall handler : Handler,
             applyCorsHeaders handler r st = Done (tt, answer)).
  { intros handler. unfold applyCorsHeaders. rewrite Hm.
    destruct st as [[hd sc bd] lg]. unfold answer.
    cbn [String.eqb Ascii.eqb Bool.eqb resp header statusCode body hlog].
    rewrite (bind_Done _ _ _ _ _ (headerAdd_run _ _ _ _ _ _)).
    rewrite (bind_Done _ _ _ _ _ (headerAdd_run _ _ _ _ _ _)).
    rewrite headerAdd_run. now rewrite <- !List.app_assoc. }
  split; [exact Hcors|].
  intros ec mux mux' pat e Hcreate Hold Hnew.
  apply CreateApiObject_inv in Hcreate as (_ & _ & Hmux). rewrite Hmux in Hnew.
  apply lookup_insert_Some in Hnew as [[_ <-]|[_ Hnew]]; [apply Hcors|].
  apply lookup_insert_Some in Hnew as [[_ <-]|[_ Hnew]]; [apply Hcors|].
  congruence.
Qed.

Lemma options_answered_by_cors_alone_witness :
  @applyCorsHeaders Canonical.world (fun _ _ => Panic "never called")
    (@mkRequest Canonical.world "OPTIONS" "/widgets" ∅ None ("", None) None)
    Canonical.start
  = Done (tt,
          {| resp := {| header :=
                          [("Access-Control-Allow-Origin", "http://localhost:8090");
                           ("Access-Control-Allow-Headers", "Authorization");
                           ("Access-Control-Allow-Methods", "GET, PUT, POST, DELETE")];
                        statusCode := None; body := "" |};
             hlog := [] |}).
Proof.
  apply (@options_answered_by_cors_alone Canonical.world
           (@mkRequest Canonical.world "OPTIONS" "/widgets" ∅ None ("", None) None)
           Canonical.start eq_refl).
Defined.

(** ** Canonical paths *)

Lemma lastByte_cons (c : ascii) (s : string) :
  lastByte (String c s) = match s with
                          | EmptyString => Some c
                          | String _ _ => lastByte s
                          end.
Proof.
  unfold lastByte. destruct s as [|d s]; [reflexivity|].
  cbn [String.length Nat.sub String.get]. now rewrite Nat.sub_0_r.
Qed.

Lemma endsWithSlash_app_slash (a : string) : endsWithSlash (a ++ "/") = true.
Proof.
  unfold endsWithSlash. induction a as [|c a IH]; [reflexivity|].
  rewrite append_cons, lastByte_cons.
  destruct (a ++ "/") eqn:Happ; [|exact IH].
  destruct a; discriminate.
Qed.

Lemma endsWithSlash_slashFree (name : string) :
  slashFree name = true -> endsWithSlash name = false.
Proof.
  unfold endsWithSlash. induction name as [|c name IH]; [reflexivity|].
  intros Hfree. simpl in Hfree. apply andb_true_iff in Hfree as [Hc Hfree].
  rewrite lastByte_cons. destruct name as [|d name].
  - now apply negb_true_iff in Hc.
  - now apply IH.
Qed.

Lemma endsWithSlash_app_slashFree (a name : string) :
  name <> "" -> slashFree name = true -> endsWithSlash (a ++ name) = false.
Proof.
  intros Hne Hfree. induction a as [|c a IH].
  - now apply endsWithSlash_slashFree.
  - unfold endsWithSlash in *. rewrite append_cons, lastByte_cons.
    destruct (a ++ name) eqn:Happ; [|exact IH].
    destruct a; [simpl in Happ; contradiction|discriminate].
Qed.

Lemma cleanName_inv name :
  cleanName name = true ->
  slashFree name = true /\ name <> "" /\
  String.eqb name "" = false /\ String.eqb name "." = false /\
  String.eqb name ".." = false.
Proof.
  unfold cleanName. intros Hc.
  apply andb_true_iff in Hc as [Hc H2]. apply andb_true_iff in Hc as [Hc H1].
  apply andb_true_iff in Hc as [Hs H0].
  apply negb_true_iff in H0, H1, H2. repeat split; try assumption.
  now apply String.eqb_neq.
Qed.

Lemma pathClean_plural name :
  cleanName name = true -> pathClean ("/" ++ name) = "/" ++ name.
Proof.
  intros Hc. destruct (cleanName_inv _ Hc) as (Hfree & _ & H0 & H1 & H2).
  unfold pathClean. rewrite Split_slash, (Split_slashFree _ Hfree).
  cbn [cleanSegments String.eqb orb]. rewrite H0, H1, H2. reflexivity.
Qed.

Lemma pathClean_singular name :
  cleanName name = true -> pathClean ("/" ++ name ++ "/") = "/" ++ name.
Proof.
  intros Hc. destruct (cleanName_inv _ Hc) as (Hfree & _ & H0 & H1 & H2).
  unfold pathClean. rewrite Split_slash.
  change (name ++ "/") with (name ++ "/" ++ "").
  rewrite (Split_segment _ _ Hfree).
  cbn [Split cleanSegments String.eqb orb]. rewrite H0, H1, H2. reflexivity.
Qed.

Lemma cleanPath_rooted (x : string) :
  cleanPath ("/" ++ x)
  = if endsWithSlash ("/" ++ x) && negb (String.eqb (pathClean ("/" ++ x)) "/")
    then pathClean ("/" ++ x) ++ "/"
    else pathClean ("/" ++ x).
Proof. reflexivity. Qed.

Lemma cleanPath_plural name :
  cleanName name = true -> cleanPath ("/" ++ name) = "/" ++ name.
Proof.
  intros Hc. destruct (cleanName_inv _ Hc) as (Hfree & Hne & _).
  rewrite cleanPath_rooted, (pathClean_plural _ Hc).
  now rewrite (endsWithSlash_app_slashFree _ _ Hne Hfree).
Qed.

Lemma cleanPath_singular name :
  cleanName name = true -> cleanPath ("/" ++ name ++ "/") = "/" ++ name ++ "/".
Proof.
  intros Hc. destruct (cleanName_inv _ Hc) as (Hfree & Hne & _).
  rewrite cleanPath_rooted, (pathClean_singular _ Hc).
  change ("/" ++ name ++ "/") with (("/" ++ name) ++ "/").
  rewrite endsWithSlash_app_slash.
  destruct name as [|c name]; [contradiction|]. reflexivity.
Qed.

(** ** Route resolution for any registered collection *)

Section Dispatch.

Context {W : World}.

Lemma withPath_same (r : Request) : withPath r (URLPath r) = r.
Proof. now destruct r. Qed.

(** A canonical path that is a registered pattern gets that pattern's
    handler. *)
Lemma muxHandler_exact mux r p e :
  m mux !! p = Some e ->
  cleanPath p = p ->
  muxHandler mux (withPath r p) = (h e, pattern e).
Proof.
  intros He Hclean. unfold muxHandler, shouldRedirect, muxHandlerFor, muxMatch.
  cbn [withPath URLPath Method].
  rewrite Hclean, He, String.eqb_refl. cbn [negb].
  now destruct (String.eqb (Method r) "CONNECT").
Qed.

Lemma last_segment_of_Split (a name : string) :
  slashFree name = true ->
  indexZ (Split (a ++ "/" ++ name) "/") (len (Split (a ++ "/" ++ name) "/") - 1)
  = Done name.
Proof.
  intros Hfree. change ("/" ++ name) with (String "/" name).
  rewrite Split_app_sep, (Split_slashFree _ Hfree). apply indexZ_last.
Qed.

Lemma indexZ_penultimate {A} (l : list A) (x y : A) :
  indexZ (l ++ [x; y])%list (len (l ++ [x; y])%list - 2) = Done x.
Proof.
  unfold indexZ, len, index. rewrite length_app. simpl length.
  replace (Z.of_nat (length l + 2) - 2)%Z with (Z.of_nat (length l)) by lia.
  destruct (Z.of_nat (length l) <? 0)%Z eqn:Hneg; [apply Z.ltb_lt in Hneg; lia|].
  rewrite Nat2Z.id, nth_error_app2 by lia. now rewrite Nat.sub_diag.
Qed.

Lemma segments_of_singular_path (a name ident : string) :
  slashFree name = true -> slashFree ident = true ->
  Split (a ++ "/" ++ name ++ "/" ++ ident) "/"
  = (Split a "/" ++ [name; ident])%list.
Proof.
  intros Hn Hi. change ("/" ++ name ++ "/" ++ ident)
    with (String "/" (name ++ "/" ++ ident)).
  now rewrite Split_app_sep, (Split_segment _ _ Hn), (Split_slashFree _ Hi).
Qed.

End Dispatch.

Lemma RootApiHandler_plural {W : World}
    (mux : ServeMux) (ec : EntityCollection) (r : Request) (a : string)
    (st : HState) :
  registered mux ec ->
  cleanName (GetRestName ec) = true ->
  URLPath r = a ++ "/" ++ GetRestName ec ->
  RootApiHandler mux r st = pluralRoute ec r st.
Proof.
  intros [Hp _] Hclean Hpath.
  destruct (cleanName_inv _ Hclean) as (Hfree & _).
  rewrite (RootApiHandler_first_match mux r st (GetRestName ec)
             (pluralRoute ec) ("/" ++ GetRestName ec)).
  - now rewrite withPath_same.
  - rewrite Hpath. now apply last_segment_of_Split.
  - rewrite (muxHandler_exact mux r _ _ Hp); [reflexivity|].
    now apply cleanPath_plural.
  - discriminate.
Qed.

(** X14: the collection hypothesis wins.  If the last segment of the path is
    the name of a registered collection (a name [path.Clean] leaves alone),
    [RootApiHandler] hands the request, with its path intact, to the plural
    route of that collection, whatever comes before the last slash. *)
Theorem RootApiHandler_plural_dispatch {W : World}
    (mux : ServeMux) (ec : EntityCollection) (r : Request) (a : string)
    (st : HState) :
  registered mux ec ->
  cleanName (GetRestName ec) = true ->
  URLPath r = a ++ "/" ++ GetRestName ec ->
  RootApiHandler mux r st = pluralRoute ec r st.
Proof. apply RootApiHandler_plural. Qed.

Lemma RootApiHandler_plural_dispatch_witness :
  exists mux,
    Canonical.widgetsMux = Done (tt, mux) /\
    RootApiHandler mux (Canonical.request "GET" "/owners/not-a-uuid/widgets")
      Canonical.start
    = pluralRoute Canonical.widgets
        (Canonical.request "GET" "/owners/not-a-uuid/widgets") Canonical.start.
Proof.
  destruct (@CreateApiObject_returns Canonical.world Canonical.widgets emptyServeMux)
    as [mux Hmux]; [reflexivity|reflexivity|].
  exists mux. split; [exact Hmux|].
  apply (@RootApiHandler_plural_dispatch Canonical.world mux Canonical.widgets
           (Canonical.request "GET" "/owners/not-a-uuid/widgets")
           "/owners/not-a-uuid").
  - now apply CreateApiObject_registers with emptyServeMux.
  - reflexivity.
  - reflexivity.
Defined.

(** X15: the entity hypothesis comes second.  If the last segment matches no
    registered pattern and the segment before it is the name of a
    registered collection, [RootApiHandler] hands the request, with its path
    intact, to the singular route of that collection. *)
Theorem RootApiHandler_singular_dispatch {W : World}
    (mux : ServeMux) (ec : EntityCollection) (r : Request) (a ident : string)
    (st : HState) :
  registered mux ec ->
  cleanName (GetRestName ec) = true ->
  slashFree ident = true ->
  URLPath r = a ++ "/" ++ GetRestName ec ++ "/" ++ ident ->
  snd (muxHandler mux (withPath r ("/" ++ ident))) = "" ->
  RootApiHandler mux r st = singularRoute ec r st.
Proof.
  intros [_ Hs] Hclean Hident Hpath Hfirst.
  destruct (cleanName_inv _ Hclean) as (Hfree & _).
  unfold RootApiHandler. rewrite Hpath.
  rewrite (segments_of_singular_path _ _ _ Hfree Hident).
  unfold bind at 1. unfold lift.
  replace (Split a "/" ++ [GetRestName ec; ident])%list
    with ((Split a "/" ++ [GetRestName ec]) ++ [ident])%list
    by (now rewrite <- List.app_assoc).
  rewrite indexZ_last.
  destruct (muxHandler mux (withPath r ("/" ++ ident))) as [h1 pattern1].
  simpl in Hfirst. subst pattern1. cbn [String.eqb negb].
  rewrite <- List.app_assoc. cbn [app].
  unfold bind, lift. rewrite indexZ_penultimate.
  rewrite (muxHandler_exact mux r _ _ Hs) by (now apply cleanPath_singular).
  rewrite <- Hpath, withPath_same. now destruct (negb _).
Qed.

Lemma RootApiHandler_singular_dispatch_witness :
  exists mux,
    Canonical.widgetsMux = Done (tt, mux) /\
    RootApiHandler mux
      (Canonical.request "PUT" "/x/y/widgets/6ba7b810-9dad-11d1-80b4-00c04fd430c8")
      Canonical.start
    = singularRoute Canonical.widgets
        (Canonical.request "PUT" "/x/y/widgets/6ba7b810-9dad-11d1-80b4-00c04fd430c8")
        Canonical.start.
Proof.
  destruct (@CreateApiObject_returns Canonical.world Canonical.widgets emptyServeMux)
    as [mux Hmux]; [reflexivity|reflexivity|].
  exists mux. split; [exact Hmux|].
  assert (Hm : mux = twoRoutes "widgets" (pluralRoute Canonical.widgets)
                                (singularRoute Canonical.widgets)).
  { pose proof (@CreateApiObject_widgets Canonical.world Canonical.widgets eq_refl)
      as Hw. congruence. }
  apply (@RootApiHandler_singular_dispatch Canonical.world mux Canonical.widgets
           (Canonical.request "PUT" "/x/y/widgets/6ba7b810-9dad-11d1-80b4-00c04fd430c8")
           "/x/y" "6ba7b810-9dad-11d1-80b4-00c04fd430c8").
  - now apply CreateApiObject_registers with emptyServeMux.
  - reflexivity.
  - reflexivity.
  - reflexivity.
  - rewrite Hm. reflexivity.
Defined.

Section Unmatched.

Context {W : World}.


Lemma shouldRedirect_root mux : shouldRedirect mux "/" = false.
Proof.
  unfold shouldRedirect. destruct (m mux !! "/"); [reflexivity|].
  destruct (m mux !! ("/" ++ "/")); reflexivity.
Qed.



End Unmatched.

(** X16: a one-segment path that matches no collection is answered with a
    redirect, never with not-found.  For [/x], the second hypothesis takes
    the empty segment in front of the first slash as the collection name and
    asks the multiplexer about [//]; whatever is registered, the handler
    served is the redirect to [/] with status 301. *)
Theorem RootApiHandler_top_level_unknown_redirects {W : World}
    (mux : ServeMux) (r : Request) (x : string) (st : HState) :
  Method r <> "CONNECT" ->
  slashFree x = true ->
  URLPath r = "/" ++ x ->
  snd (muxHandler mux (withPath r ("/" ++ x))) = "" ->
  RootApiHandler mux r st = RedirectHandler "/" StatusMovedPermanently r st.
Proof.
  intros Hm Hfree Hpath Hfirst. apply String.eqb_neq in Hm.
  unfold RootApiHandler. rewrite Hpath, Split_slash, (Split_slashFree _ Hfree).
  unfold bind at 1. unfold lift. cbn [indexZ len length Z.of_nat Z.sub Z.ltb].
  change (indexZ [""; x] (len [""; x] - 1)) with (Done (A:=string) x).
  cbv beta iota.
  destruct (muxHandler mux (withPath r ("/" ++ x))) as [h1 pattern1].
  simpl in Hfirst. subst pattern1. cbn [String.eqb negb].
  unfold bind, lift.
  change (indexZ [""; x] (len [""; x] - 2)) with (Done (A:=string) "").
  cbv beta iota.
  unfold muxHandler. cbn [withPath Method URLPath]. rewrite Hm.
  change (cleanPath ("/" ++ "" ++ "/")) with "/".
  rewrite shouldRedirect_root.
  change (negb (String.eqb "/" ("/" ++ "" ++ "/"))) with true. cbv iota.
  now destruct (negb _).
Qed.

Lemma RootApiHandler_top_level_unknown_redirects_witness :
  exists mux,
    Canonical.widgetsMux = Done (tt, mux) /\
    RootApiHandler mux (Canonical.request "GET" "/gadgets") Canonical.start
    = RedirectHandler "/" StatusMovedPermanently
        (Canonical.request "GET" "/gadgets") Canonical.start.
Proof.
  exists (twoRoutes "widgets" (pluralRoute Canonical.widgets)
                    (singularRoute Canonical.widgets)).
  split; [exact (@CreateApiObject_widgets Canonical.world Canonical.widgets eq_refl)|].
  apply (@RootApiHandler_top_level_unknown_redirects Canonical.world _
           (Canonical.request "GET" "/gadgets") "gadgets").
  - discriminate.
  - reflexivity.
  - reflexivity.
  - reflexivity.
Defined.



(** X18: [RootApiHandler] itself panics in one case only: the path holds no
    slash and its single segment matches no registered pattern, so that the
    second hypothesis asks for the segment before the only one.  In the two
    other cases it serves the request, with its path intact, through a
    handler the multiplexer returned: on a path without a slash whose single
    segment matches a registered pattern, through the handler of that
    match; on a path with a slash, always. *)
Theorem RootApiHandler_panics_only_without_slash {W : World}
    (mux : ServeMux) (r : Request) (st : HState) :
  (slashFree (URLPath r) = true ->
   snd (muxHandler mux (withPath r ("/" ++ URLPath r))) = "" ->
   exists reason, RootApiHandler mux r st = Panic reason) /\
  (slashFree (URLPath r) = true ->
   snd (muxHandler mux (withPath r ("/" ++ URLPath r))) <> "" ->
   RootApiHandler mux r st
   = fst (muxHandler mux (withPath r ("/" ++ URLPath r))) r st) /\
  (slashFree (URLPath r) = false ->
   exists p, RootApiHandler mux r st = fst (muxHandler mux (withPath r p)) r st).
Proof.
  split; [|split].
  - intros Hfree Hfirst. unfold RootApiHandler.
    rewrite (Split_slashFree _ Hfree). unfold bind at 1. unfold lift.
    change (indexZ [URLPath r] (len [URLPath r] - 1)) with (Done (A:=string) (URLPath r)).
    cbv beta iota.
    destruct (muxHandler mux (withPath r ("/" ++ URLPath r))) as [h1 pattern1].
    simpl in Hfirst. subst pattern1. cbn [String.eqb negb]. eexists. reflexivity.
  - intros Hfree Hfirst. unfold RootApiHandler.
    rewrite (Split_slashFree _ Hfree). unfold bind at 1. unfold lift.
    change (indexZ [URLPath r] (len [URLPath r] - 1)) with (Done (A:=string) (URLPath r)).
    cbv beta iota.
    destruct (muxHandler mux (withPath r ("/" ++ URLPath r))) as [h1 pattern1].
    simpl in Hfirst. cbn [fst].
    destruct (String.eqb pattern1 "") eqn:Hp;
      [apply String.eqb_eq in Hp; contradiction|].
    cbn [negb]. now rewrite withPath_same.
  - intros Hslash. unfold RootApiHandler.
    destruct (Split_two_of_slash _ Hslash) as (x & y & rest & Hsplit). rewrite Hsplit.
    destruct (nonempty_snoc y rest) as (l1 & z & Hsnoc).
    assert (Hlast : indexZ (x :: y :: rest) (len (x :: y :: rest) - 1) = Done z).
    { rewrite Hsnoc. apply (indexZ_last (x :: l1) z). }
    assert (Hpen : exists w, indexZ (x :: y :: rest) (len (x :: y :: rest) - 2) = Done w).
    { rewrite Hsnoc. destruct (nonempty_snoc x l1) as (l2 & w & Hsnoc2).
      change (x :: l1 ++ [z])%list with ((x :: l1) ++ [z])%list. rewrite Hsnoc2.
      rewrite <- List.app_assoc. exists w. apply indexZ_penultimate. }
    destruct Hpen as [w Hpen].
    unfold bind at 1. unfold lift. rewrite Hlast. cbv beta iota.
    destruct (muxHandler mux (withPath r ("/" ++ z))) as [h1 pattern1] eqn:H1.
    destruct (negb (String.eqb pattern1 "")).
    + exists ("/" ++ z). now rewrite H1, withPath_same.
    + unfold bind, lift. rewrite Hpen. cbv beta iota.
      destruct (muxHandler mux (withPath r ("/" ++ w ++ "/"))) as [h2 pattern2] eqn:H2.
      exists ("/" ++ w ++ "/"). rewrite H2, withPath_same. now destruct (negb _).
Qed.

(** The three cases: [*] on an empty multiplexer panics; [widgets], without
    a slash, is served by the plural route of the registered collection;
    [/a/b] is served by a handler of the multiplexer. *)
Lemma RootApiHandler_panics_only_without_slash_witness :
  (exists reason,
      RootApiHandler emptyServeMux (Canonical.request "OPTIONS" "*") Canonical.start
      = Panic reason) /\
  (RootApiHandler
     (twoRoutes "widgets" (pluralRoute Canonical.widgets)
                (singularRoute Canonical.widgets))
     (Canonical.request "GET" "widgets") Canonical.start
   = pluralRoute Canonical.widgets (Canonical.request "GET" "widgets")
       Canonical.start) /\
  (exists p,
      RootApiHandler emptyServeMux (Canonical.request "GET" "/a/b") Canonical.start
      = fst (muxHandler emptyServeMux (withPath (Canonical.request "GET" "/a/b") p))
          (Canonical.request "GET" "/a/b") Canonical.start).
Proof.
  split; [|split].
  - apply (@RootApiHandler_panics_only_without_slash Canonical.world); reflexivity.
  - apply (proj1 (proj2 (@RootApiHandler_panics_only_without_slash Canonical.world
             (twoRoutes "widgets" (pluralRoute Canonical.widgets)
                        (singularRoute Canonical.widgets))
             (Canonical.request "GET" "widgets") Canonical.start))).
    + reflexivity.
    + discriminate.
  - apply (@RootApiHandler_panics_only_without_slash Canonical.world). reflexivity.
Defined.

(** X19: a POST to a registered collection, end to end.  With credentials
    the authentication function accepts, a path that parses, a body that
    reads and a collection that creates the entity, [RootApiHandler] answers
    with status 201 and a [Location] header holding the path the collection
    returned; the body and the log are untouched, and the collection is
    given the authenticated requestor, the parent map of the path and the
    body. *)
Theorem post_to_registered_collection_creates {W : World}
    (mux : ServeMux) (ec : EntityCollection) (r : Request) (a : string)
    (uname pword : string)
    (auth : string -> string -> option Entity * option error)
    (requestor : option Entity) (b loc : string) (st : HState) :
  registered mux ec ->
  cleanName (GetRestName ec) = true ->
  URLPath r = a ++ "/" ++ GetRestName ec ->
  Method r = "POST" ->
  statusCode (resp st) = None ->
  snd (getPathComponentUuids (URLPath r)) = None ->
  BasicAuth r = Some (uname, pword) ->
  getRequestor = Some auth ->
  auth uname pword = (requestor, None) ->
  Body r = (b, None) ->
  CreateEntity ec requestor (fst (getPathComponentUuids (URLPath r))) b = (loc, None) ->
  exists st',
    RootApiHandler mux r st = Done (tt, st') /\
    statusCode (resp st') = Some StatusCreated /\
    In ("Location", loc) (header (resp st')) /\
    body (resp st') = body (resp st) /\
    hlog st' = hlog st.
Proof.
  intros Hreg Hclean Hpath Hm Hfresh Hvalid Hauth Hreq Hok Hbody Hcreate.
  rewrite (RootApiHandler_plural mux ec r a st Hreg Hclean Hpath).
  unfold pluralRoute, applyCorsHeaders, applySecurity, getPluralHandler, pluralPost,
    getRequestorFromRequest.
  cbn [withRequestor Method URLPath Body ctxRequestor BasicAuth].
  rewrite Hm. cbn [String.eqb Ascii.eqb Bool.eqb andb orb].
  unfold bind at 1 2. cbn [headerAdd onResp modify].
  rewrite Hauth, Hreq, Hok.
  destruct (getPathComponentUuids (URLPath r)) as [parents err].
  cbn [fst snd] in *. subst err. rewrite Hbody, Hcreate.
  destruct st as [[hd sc bd] lg]. cbn in Hfresh. subst sc.
  eexists. split; [reflexivity|]. cbn.
  split; [reflexivity|]. split; [|split; reflexivity].
  apply in_or_app. right. now left.
Qed.

Lemma post_to_registered_collection_creates_witness :
  exists st',
    RootApiHandler
      (twoRoutes "widgets" (pluralRoute Canonical.widgets)
                 (singularRoute Canonical.widgets))
      (Canonical.request "POST" "/widgets") Canonical.start = Done (tt, st') /\
    statusCode (resp st') = Some StatusCreated /\
    In ("Location", "/widgets/00000000-0000-0000-0000-000000000000")
       (header (resp st')) /\
    body (resp st') = "" /\ hlog st' = [].
Proof.
  apply (@post_to_registered_collection_creates Canonical.world _ Canonical.widgets
           (Canonical.request "POST" "/widgets") "" "alice" "secret"
           (fun uname _ => (Some uname, None)) (Some "alice") "").
  - split; reflexivity.
  - reflexivity.
  - reflexivity.
  - reflexivity.
  - reflexivity.
  - reflexivity.
  - reflexivity.
  - reflexivity.
  - reflexivity.
  - reflexivity.
  - reflexivity.
Defined.

(** ** The earlier handlers and the current ones *)

Section EarlierHandlers.

Context {W : World}.

(** The earlier loop and [parentLoop] stop at the same identifier and
    otherwise build the same map. *)
Lemma earlierParentLoop_parentLoop pcs acc :
  match earlierParentLoop pcs acc with
  | (mp, None) => parentLoop pcs acc = (mp, None)
  | (_, Some (name, e)) => parentLoop pcs acc = (∅, Some (parseUUIDError name e))
  end.
Proof.
  revert acc. induction pcs as [| x | name ident rest IH] using list_pair_ind;
    intros acc; simpl; try reflexivity.
  destruct (FromString ident) as [u [e|]]; [reflexivity|apply IH].
Qed.

Lemma earlierPluralHandler_path_error ec r st e :
  snd (getPathComponentUuids (URLPath r)) = Some e ->
  exists line,
    earlierPluralHandler ec r st
    = (logLine line ;;; httpError "error parsing URL" StatusInternalServerError) st.
Proof.
  unfold getPathComponentUuids, earlierPluralHandler. intros Herr.
  destruct (negb (len (pathComponentsOf (URLPath r)) mod 2 =? 1)%Z).
  - eexists. reflexivity.
  - pose proof (earlierParentLoop_parentLoop (pathComponentsOf (URLPath r)) ∅) as Hloop.
    destruct (earlierParentLoop (pathComponentsOf (URLPath r)) ∅) as [mp [[name e']|]].
    + eexists. reflexivity.
    + rewrite Hloop in Herr. discriminate.
Qed.

Lemma earlierPluralHandler_valid ec r st parents :
  getPathComponentUuids (URLPath r) = (parents, None) ->
  earlierPluralHandler ec r st = earlierPluralSwitch ec r parents st.
Proof.
  unfold getPathComponentUuids, earlierPluralHandler. intros Hvalid.
  destruct (negb (len (pathComponentsOf (URLPath r)) mod 2 =? 1)%Z); [discriminate|].
  pose proof (earlierParentLoop_parentLoop (pathComponentsOf (URLPath r)) ∅) as Hloop.
  destruct (earlierParentLoop (pathComponentsOf (URLPath r)) ∅) as [mp [[name e']|]].
  - rewrite Hloop in Hvalid. discriminate.
  - rewrite Hloop in Hvalid. injection Hvalid as <-. reflexivity.
Qed.

(** The errors of [getPathComponentUuids] are its own two kinds. *)
Lemma parentLoop_error_kind pcs acc e :
  snd (parentLoop pcs acc) = Some e -> exists pc pe, e = parseUUIDError pc pe.
Proof.
  revert acc. induction pcs as [| x | name ident rest IH] using list_pair_ind;
    intros acc; simpl; try discriminate.
  destruct (FromString ident) as [u [pe|]]; [|apply IH].
  simpl. intros [= <-]. eauto.
Qed.

Lemma getPathComponentUuids_error_kind path e :
  snd (getPathComponentUuids path) = Some e ->
  e = pathComponentError path \/ exists pc pe, e = parseUUIDError pc pe.
Proof.
  unfold getPathComponentUuids.
  destruct (negb (len (pathComponentsOf path) mod 2 =? 1)%Z).
  - simpl. intros [= <-]. now left.
  - intros Herr. right. eapply parentLoop_error_kind, Herr.
Qed.

(** [pop] writes to the log only. *)
Lemma runPop_resp q st res st' :
  runPop q st = Done (res, st') -> resp st' = resp st.
Proof.
  unfold runPop. destruct (pop rangeOrder q _) as [[err fs]|reason]; [|discriminate].
  now intros [= _ <-].
Qed.

Lemma append_inv_head (a x y : string) : a ++ x = a ++ y -> x = y.
Proof.
  induction a as [|c a IH]; [easy|].
  rewrite !append_cons. intros [= H]. now apply IH.
Qed.

(** The answers of the method switch are not the answer to a path error:
    when the switch returns, it has not both written status 500 and
    appended [error parsing URL] to the body. *)
Lemma earlierPluralSwitch_not_path_error ec r parents st st' :
  statusCode (resp st) = None ->
  earlierPluralSwitch ec r parents st = Done (tt, st') ->
  ~ (statusCode (resp st') = Some StatusInternalServerError /\
     body (resp st') = body (resp st) ++ "error parsing URL" ++ newline).
Proof.
  intros Hfresh Hrun [Hst Hbody]. unfold earlierPluralSwitch in Hrun.
  destruct (String.eqb (Method r) "GET").
  - unfold bind at 1 in Hrun.
    destruct (runPop (Query r) st) as [[res st1]|reason] eqn:Hpop; [|discriminate].
    apply runPop_resp in Hpop. destruct st as [[hd sc bd] lg]. cbn in Hfresh. subst sc.
    destruct st1 as [w1 lg1]. cbn in Hpop. subst w1.
    destruct (GetCollection ec parents (snd res)) as [c [e|]].
    + rewrite (bind_Done _ _ _ _ _ (logLine_run _ _ _)), httpError_run in Hrun.
      injection Hrun as <-. cbn [resp body] in Hbody.
      apply append_inv_head in Hbody. vm_compute in Hbody. discriminate.
    + destruct (jsonMarshalCollection c) as [ej [e|]].
      * rewrite httpError_run in Hrun. injection Hrun as <-. cbn [resp body] in Hbody.
        apply append_inv_head in Hbody. vm_compute in Hbody. discriminate.
      * injection Hrun as <-. cbn in Hst. injection Hst as Hst.
        unfold StatusOK, StatusInternalServerError in Hst. lia.
  - destruct st as [[hd sc bd] lg]. cbn in Hfresh. subst sc.
    destruct (String.eqb (Method r) "POST").
    + destruct (Body r) as [b [e|]].
      * rewrite httpError_run in Hrun. injection Hrun as <-. cbn [resp body] in Hbody.
        apply append_inv_head in Hbody.
        apply (f_equal (String.get 14)) in Hbody. cbv in Hbody. discriminate.
      * destruct (CreateEntity ec (getRequestorFromRequest r) parents b) as [loc [e|]].
        -- rewrite httpError_run in Hrun. injection Hrun as <-. cbn [resp body] in Hbody.
           apply append_inv_head in Hbody.
           apply (f_equal (String.get 6)) in Hbody. cbv in Hbody. discriminate.
        -- rewrite (bind_Done _ _ _ _ _ (headerSet_run _ _ _ _ _ _)), WriteHeader_run in Hrun.
           injection Hrun as <-. cbn in Hst. injection Hst as Hst.
           unfold StatusCreated, StatusInternalServerError in Hst. lia.
    + injection Hrun as <-. discriminate.
Qed.

End EarlierHandlers.

(** X20: the earlier plural handler rejects exactly the paths that
    [getPathComponentUuids] rejects.  On a path the parser rejects it
    answers with status 500 and [error parsing URL], where the current
    handler answers with status 404; both return and write one log line.
    On a path that parses it goes on to the method switch with the map the
    parser returns, as the current handler does with its own cases, and
    whatever it answers is not the answer to a rejected path. *)
Theorem path_errors_earlier_500_current_404 {W : World}
    (ec : EntityCollection) (r : Request) (st : HState) :
  statusCode (resp st) = None ->
  (forall e : error,
      snd (getPathComponentUuids (URLPath r)) = Some e ->
      (exists st',
          earlierPluralHandler ec r st = Done (tt, st') /\
          statusCode (resp st') = Some StatusInternalServerError /\
          body (resp st') = body (resp st) ++ "error parsing URL" ++ newline /\
          length (hlog st') = S (length (hlog st))) /\
      (exists st',
          getPluralHandler ec r st = Done (tt, st') /\
          statusCode (resp st') = Some StatusNotFound /\
          length (hlog st') = S (length (hlog st)))) /\
  (snd (getPathComponentUuids (URLPath r)) = None ->
   earlierPluralHandler ec r st
   = earlierPluralSwitch ec r (fst (getPathComponentUuids (URLPath r))) st /\
   getPluralHandler ec r st
   = (if String.eqb (Method r) "GET"
      then pluralGet ec r (fst (getPathComponentUuids (URLPath r)))
      else if String.eqb (Method r) "POST"
      then pluralPost ec r (fst (getPathComponentUuids (URLPath r)))
      else ret tt) st /\
   (forall st',
       earlierPluralHandler ec r st = Done (tt, st') ->
       ~ (statusCode (resp st') = Some StatusInternalServerError /\
          body (resp st') = body (resp st) ++ "error parsing URL" ++ newline))).
Proof.
  intros Hfresh. split.
  - intros e Herr. destruct st as [[hd sc bd] lg]. cbn in Hfresh. subst sc. split.
    + edestruct (earlierPluralHandler_path_error ec r) as [line Hline]; [exact Herr|].
      rewrite Hline, (bind_Done _ _ _ _ _ (logLine_run _ _ _)), httpError_run.
      eexists. split; [reflexivity|]. cbn [resp statusCode body hlog].
      rewrite length_app. repeat split. simpl. lia.
    + unfold getPluralHandler.
      destruct (getPathComponentUuids_error_kind _ _ Herr) as [->|(pc & pe & ->)];
        destruct (getPathComponentUuids (URLPath r)) as [parents err];
        cbn in Herr; subst err; unfold pathErrorResponse;
        rewrite (bind_Done _ _ _ _ _ (logLine_run _ _ _)), httpError_run;
        (eexists; split; [reflexivity|]; cbn [resp statusCode hlog];
         rewrite length_app; split; [reflexivity|simpl; lia]).
  - intros Hvalid.
    destruct (getPathComponentUuids (URLPath r)) as [parents err] eqn:Hpath.
    cbn in Hvalid. subst err. cbn [fst].
    pose proof (earlierPluralHandler_valid ec r st parents Hpath) as Hsw.
    split; [exact Hsw|]. split.
    + unfold getPluralHandler. now rewrite Hpath.
    + intros st' Hrun. rewrite Hsw in Hrun.
      now apply (earlierPluralSwitch_not_path_error ec r parents st st').
Qed.

Lemma path_errors_earlier_500_current_404_witness :
  (* a path the parser rejects *)
  ((exists st',
      earlierPluralHandler Canonical.widgets
        (Canonical.request "GET" "/owners/widgets") Canonical.start = Done (tt, st') /\
      statusCode (resp st') = Some StatusInternalServerError /\
      body (resp st') = "" ++ "error parsing URL" ++ newline /\
      length (hlog st') = 1%nat) /\
   (exists st',
      getPluralHandler Canonical.widgets
        (Canonical.request "GET" "/owners/widgets") Canonical.start = Done (tt, st') /\
      statusCode (resp st') = Some StatusNotFound /\
      length (hlog st') = 1%nat)) /\
  (* a path that parses *)
  (earlierPluralHandler gadgets (Canonical.request "POST" "/gadgets") Canonical.start
   = earlierPluralSwitch gadgets (Canonical.request "POST" "/gadgets") ∅
       Canonical.start /\
   statusCode (resp Canonical.start) = None /\
   forall st',
     earlierPluralHandler gadgets (Canonical.request "POST" "/gadgets") Canonical.start
     = Done (tt, st') ->
     ~ (statusCode (resp st') = Some StatusInternalServerError /\
        body (resp st') = "" ++ "error parsing URL" ++ newline)).
Proof.
  split.
  - exact (proj1 (@path_errors_earlier_500_current_404 Canonical.world Canonical.widgets
                    (Canonical.request "GET" "/owners/widgets") Canonical.start eq_refl)
             (pathComponentError "/owners/widgets") eq_refl).
  - destruct (proj2 (@path_errors_earlier_500_current_404 Canonical.world gadgets
                       (Canonical.request "POST" "/gadgets") Canonical.start eq_refl)
                eq_refl) as (Hsw & _ & Hnot).
    split; [exact Hsw|]. split; [reflexivity|exact Hnot].
Defined.

(** X21: the earlier handlers and the current ones differ in their failure
    answers only.  For a collection and an encoder that never fail and a
    body that reads, the earlier plural handler and the current one do the
    same on every path that parses, and the earlier singular handler and the
    current one do the same whenever the last segment parses as a UUID:
    same response, same log, same panics. *)
Theorem earlier_and_current_agree_without_failures {W : World}
    (ec : EntityCollection) (r : Request) (st : HState) :
  (forall u b, EditEntity ec u b = None) ->
  (forall u, DelEntity ec u = None) ->
  (forall u, snd (GetEntity ec u) = None) ->
  (forall e, snd (jsonMarshalEntity e) = None) ->
  (forall parents filter, snd (GetCollection ec parents filter) = None) ->
  (forall c, snd (jsonMarshalCollection c) = None) ->
  (forall requestor parents b, snd (CreateEntity ec requestor parents b) = None) ->
  snd (Body r) = None ->
  (snd (getPathComponentUuids (URLPath r)) = None ->
   earlierPluralHandler ec r st = getPluralHandler ec r st) /\
  ((forall last,
       indexZ (pathComponentsOf (URLPath r))
              (len (pathComponentsOf (URLPath r)) - 1) = Done last ->
       snd (FromString last) = None) ->
   earlierSingularHandler ec r st = getSingularHandler ec r st).
Proof.
  intros Hedit Hdel Hget Hjson Hcoll Hjsonc Hcreate Hbody. split.
  - intros Hvalid.
    destruct (getPathComponentUuids (URLPath r)) as [parents err] eqn:Hpath.
    cbn in Hvalid. subst err.
    rewrite (earlierPluralHandler_valid ec r st parents Hpath).
    unfold earlierPluralSwitch, getPluralHandler. rewrite Hpath.
    destruct (String.eqb (Method r) "GET").
    + rewrite pluralGet_skips_filterErrorBranch. unfold bind, collectionResponse.
      destruct (runPop (Query r) st) as [[res st1]|reason]; [|reflexivity].
      specialize (Hcoll parents (snd res)).
      destruct (GetCollection ec parents (snd res)) as [c err]. cbn in Hcoll. subst err.
      specialize (Hjsonc c). destruct (jsonMarshalCollection c) as [ej err].
      cbn in Hjsonc. now subst err.
    + destruct (String.eqb (Method r) "POST"); [|reflexivity].
      unfold pluralPost. destruct (Body r) as [b err]. cbn in Hbody. subst err.
      specialize (Hcreate (getRequestorFromRequest r) parents b).
      destruct (CreateEntity ec (getRequestorFromRequest r) parents b) as [p err].
      cbn in Hcreate. now subst err.
  - intros Hlast. unfold earlierSingularHandler, getSingularHandler.
    unfold bind at 1 3. unfold lift.
    destruct (indexZ _ _) as [last|reason] eqn:Hidx; [|reflexivity].
    specialize (Hlast last eq_refl).
    destruct (FromString last) as [u err]. cbn in Hlast. subst err.
    destruct (String.eqb (Method r) "PUT").
    { destruct (Body r) as [b err]. cbn in Hbody. subst err. now rewrite Hedit. }
    destruct (String.eqb (Method r) "DELETE"); [now rewrite Hdel|].
    destruct (String.eqb (Method r) "GET"); [|reflexivity].
    specialize (Hget u). destruct (GetEntity ec u) as [entity err].
    cbn in Hget. subst err.
    specialize (Hjson entity). destruct (jsonMarshalEntity entity) as [ej err].
    cbn in Hjson. now subst err.
Qed.

Lemma earlier_and_current_agree_without_failures_witness :
  earlierPluralHandler gadgets (Canonical.request "POST" "/gadgets") Canonical.start
  = getPluralHandler gadgets (Canonical.request "POST" "/gadgets") Canonical.start /\
  earlierSingularHandler gadgets
    (Canonical.request "GET" "/gadgets/6ba7b810-9dad-11d1-80b4-00c04fd430c8")
    Canonical.start
  = getSingularHandler gadgets
      (Canonical.request "GET" "/gadgets/6ba7b810-9dad-11d1-80b4-00c04fd430c8")
      Canonical.start.
Proof.
  split.
  - apply (@earlier_and_current_agree_without_failures Canonical.world gadgets
             (Canonical.request "POST" "/gadgets") Canonical.start);
      try (intros; reflexivity).
  - apply (@earlier_and_current_agree_without_failures Canonical.world gadgets
             (Canonical.request "GET" "/gadgets/6ba7b810-9dad-11d1-80b4-00c04fd430c8")
             Canonical.start);
      try (intros; reflexivity).
    intros last [= <-]. reflexivity.
Defined.

(** X22: serving before [SetRequestorAuthFn] was called.  While the function
    variable [getRequestor] is nil, every request with a forwarded method
    that carries credentials makes the security wrapper panic, after the
    CORS headers were added and before the wrapped handler is reached;
    requests without credentials are still answered (with 401). *)
Theorem unset_requestor_function_panics {W : World} (r : Request) (st : HState)
    (uname pword : string) :
  getRequestor = None ->
  In (Method r) forwardedMethods ->
  BasicAuth r = Some (uname, pword) ->
  forall handler : Handler,
    applyCorsHeaders (applySecurity handler) r st
    = Panic "invalid memory address or nil pointer dereference".
Proof.
  intros Hnil Hm Hauth handler.
  destruct (forwarded_method_tests r Hm) as [Hopt Hfwd].
  unfold applyCorsHeaders, applySecurity. rewrite Hopt, Hfwd, Hauth, Hnil.
  reflexivity.
Qed.

Lemma unset_requestor_function_panics_witness :
  @applyCorsHeaders unconfiguredWorld
    (@applySecurity unconfiguredWorld (fun _ st => Done (tt, st)))
    {| Method := "GET"; URLPath := "/widgets"; Query := ∅;
       BasicAuth := Some ("alice", "secret"); Body := ("", None);
       ctxRequestor := None |}
    {| resp := {| header := []; statusCode := None; body := "" |}; hlog := [] |}
  = Panic "invalid memory address or nil pointer dereference".
Proof.
  apply (@unset_requestor_function_panics unconfiguredWorld _ _ "alice" "secret").
  - reflexivity.
  - unfold forwardedMethods. simpl. tauto.
  - reflexivity.
Defined.
